(** * Sliding Window Log rate limiter: model and verification

    A shallow embedding of [src/rateLimiter.ts] (class [RateLimiter]), of the
    three handlers of [src/routes/rateLimitRoutes.ts] and of the properties
    file loader of [src/config.ts].

    Numbers.  The source works on JavaScript numbers.  Timestamps and the
    window size are modelled as exact rationals ([Q]); the request limit and
    every count as integers ([Z], [nat] for an array length).  The clock is
    an input: each method receives, as [currentTime], the value it computes
    on its first line as [Date.now() / 1000].

    The source computes [Date.now() / 1000] and [currentTime - W] in
    doubles.  On a clock of whole milliseconds the rounding stays far below
    one millisecond, so the doubles order a timestamp and a window start as
    the rationals do, except when the two are equal as rationals: an entry
    exactly one window old.  There the source may keep an entry the model
    drops.  Statements that depend on which side such an entry falls say so
    in a hypothesis ([staleBefore], [offBoundary], [neverAWindowApart]) and
    keep away from that case. *)

From Stdlib Require Import QArith Lqa ZArith Lia List Sorted.
From stdpp Require Import gmap strings.

Local Open Scope Z_scope.

(** ** The clock *)

(** [Date.now() / 1000]: the clock counts whole milliseconds.  This is the
    exact quotient; the source holds the double nearest to it. *)
Definition currentTimeOf (dateNow : Z) : Q := dateNow # 1000.

(** [timestamp > windowStart] *)
Definition Qgt_bool (timestamp windowStart : Q) : bool :=
  negb (Qle_bool timestamp windowStart).

(** ** The class [RateLimiter] *)

Module RateLimitStats.
Record t := mk {
  currentCount : nat;
  remaining : Z;
  limit : Z;
  windowSizeSeconds : Q
}.
End RateLimitStats.

Record RateLimiter := mkRateLimiter {
  userLogs : gmap string (list Q);
  maxRequestsPerHour : Z;
  windowSizeSeconds : Q
}.

(** [new RateLimiter(maxRequestsPerHour, windowSizeSeconds)] *)
Definition constructor (maxRequestsPerHour : Z) (windowSizeSeconds : Q)
  : RateLimiter :=
  mkRateLimiter ∅ maxRequestsPerHour windowSizeSeconds.

(** Methods run against [this] and may replace the map held in [userLogs];
    the two [readonly] fields are never assigned. *)
Definition M (A : Type) : Type := RateLimiter → A * RateLimiter.

Definition ret {A} (a : A) : M A := λ this, (a, this).

Definition bind {A B} (m : M A) (k : A → M B) : M B :=
  λ this, let (a, this') := m this in k a this'.

Definition this_ {A} (field : RateLimiter → A) : M A :=
  λ this, (field this, this).

Definition setUserLogs (logs : gmap string (list Q)) : M unit :=
  λ this,
    (tt, mkRateLimiter logs (maxRequestsPerHour this) (windowSizeSeconds this)).

Notation "x <- m ;; k" := (bind m (λ x, k))
  (at level 100, m at next level, right associativity).
Notation "m ;;; k" := (bind m (λ _, k))
  (at level 100, right associativity).

(** The loop
    [while (userLog.length > 0 && userLog[0] <= windowStart) userLog.shift()]. *)
Fixpoint pruneFront (windowStart : Q) (userLog : list Q) : list Q :=
  match userLog with
  | [] => []
  | timestamp :: rest =>
      if Qle_bool timestamp windowStart
      then pruneFront windowStart rest
      else userLog
  end.

(** [allow(userId)].  The array fetched from (or created in) the map is the
    one the loop shifts and the push extends, so the map entry of [userId]
    holds the pruned array afterwards, whether or not the request passed. *)
Definition allow (userId : string) (currentTime : Q) : M bool :=
  W <- this_ windowSizeSeconds ;;
  let windowStart := (currentTime - W)%Q in
  logs <- this_ userLogs ;;
  let userLog := default [] (logs !! userId) in
  let userLog := pruneFront windowStart userLog in
  L <- this_ maxRequestsPerHour ;;
  if Z.of_nat (length userLog) <? L
  then setUserLogs (<[userId := userLog ++ [currentTime]]> logs) ;;; ret true
  else setUserLogs (<[userId := userLog]> logs) ;;; ret false.

(** [userLog.filter((timestamp) => timestamp > windowStart)] *)
Definition filteredLog (windowStart : Q) (userLog : list Q) : list Q :=
  List.filter (λ timestamp, Qgt_bool timestamp windowStart) userLog.

(** [getRemainingRequests(userId)] *)
Definition getRemainingRequests (userId : string) (currentTime : Q) : M Z :=
  W <- this_ windowSizeSeconds ;;
  let windowStart := (currentTime - W)%Q in
  logs <- this_ userLogs ;;
  let userLog := default [] (logs !! userId) in
  let currentCount := length (filteredLog windowStart userLog) in
  L <- this_ maxRequestsPerHour ;;
  ret (Z.max 0 (L - Z.of_nat currentCount)).

(** [getRequestCount(userId)] *)
Definition getRequestCount (userId : string) (currentTime : Q) : M nat :=
  W <- this_ windowSizeSeconds ;;
  let windowStart := (currentTime - W)%Q in
  logs <- this_ userLogs ;;
  let userLog := default [] (logs !! userId) in
  ret (length (filteredLog windowStart userLog)).

(** [getStats(userId)]: the two calls read the clock one after the other. *)
Definition getStats (userId : string) (currentTime1 currentTime2 : Q)
  : M RateLimitStats.t :=
  currentCount <- getRequestCount userId currentTime1 ;;
  remaining <- getRemainingRequests userId currentTime2 ;;
  L <- this_ maxRequestsPerHour ;;
  W <- this_ windowSizeSeconds ;;
  ret (RateLimitStats.mk currentCount remaining L W).

(** [resetUser(userId)] *)
Definition resetUser (userId : string) : M unit :=
  logs <- this_ userLogs ;;
  setUserLogs (delete userId logs).

(** [resetAll()] *)
Definition resetAll : M unit := setUserLogs ∅.

(** ** Calls and runs *)

Inductive call :=
| Allow (userId : string) (currentTime : Q)
| GetRemainingRequests (userId : string) (currentTime : Q)
| GetRequestCount (userId : string) (currentTime : Q)
| GetStats (userId : string) (currentTime1 currentTime2 : Q)
| ResetUser (userId : string)
| ResetAll.

Inductive value :=
| VBool (b : bool)
| VInt (z : Z)
| VCount (n : nat)
| VStats (s : RateLimitStats.t)
| VVoid.

Definition perform (c : call) : M value :=
  match c with
  | Allow u t => b <- allow u t ;; ret (VBool b)
  | GetRemainingRequests u t => z <- getRemainingRequests u t ;; ret (VInt z)
  | GetRequestCount u t => n <- getRequestCount u t ;; ret (VCount n)
  | GetStats u t1 t2 => s <- getStats u t1 t2 ;; ret (VStats s)
  | ResetUser u => resetUser u ;;; ret VVoid
  | ResetAll => resetAll ;;; ret VVoid
  end.

(** A sequence of calls, with the list of what they returned. *)
Fixpoint performAll (cs : list call) : M (list value) :=
  match cs with
  | [] => ret []
  | c :: cs' => v <- perform c ;; vs <- performAll cs' ;; ret (v :: vs)
  end.

(** A burst of [allow(userId)] calls at the given clock readings. *)
Fixpoint burst (userId : string) (times : list Q) : M (list bool) :=
  match times with
  | [] => ret []
  | t :: times' =>
      b <- allow userId t ;; bs <- burst userId times' ;; ret (b :: bs)
  end.

(** The read-only projections. *)
Definition isRead (c : call) : bool :=
  match c with
  | GetRemainingRequests _ _ | GetRequestCount _ _ | GetStats _ _ _ => true
  | _ => false
  end.

(** The user a call is made for; [resetAll] names none. *)
Definition userOf (c : call) : option string :=
  match c with
  | Allow u _ | GetRemainingRequests u _ | GetRequestCount u _
  | GetStats u _ _ | ResetUser u => Some u
  | ResetAll => None
  end.

(** States a limiter built with [constructor L W] can be in. *)
Inductive reachable (L : Z) (W : Q) : RateLimiter → Prop :=
| reachable_new : reachable L W (constructor L W)
| reachable_call c this :
    reachable L W this → reachable L W (snd (perform c this)).

(** The log the map holds for a user, [[]] when it holds none. *)
Definition logOf (userId : string) (this : RateLimiter) : list Q :=
  default [] (userLogs this !! userId).


(** ** Bursts, as the properties below speak of them *)




(** ** The route [POST /rate-limit/allow] *)

Module Routes.

(** What [req.body.userId] can be once the JSON body is parsed; JSON has no
    [NaN], and [undefined] stands for a field the body does not have. *)
Inductive JsValue :=
| JsUndefined
| JsNull
| JsBoolean (b : bool)
| JsNumber (n : Q)
| JsString (s : string)
| JsObject.

(** [!v] is [negb (truthy v)]. *)
Definition truthy (v : JsValue) : bool :=
  match v with
  | JsUndefined | JsNull => false
  | JsBoolean b => b
  | JsNumber n => negb (Qeq_bool n 0)
  | JsString s => negb (String.eqb s EmptyString)
  | JsObject => true
  end.

(** [typeof v !== 'string'] *)
Definition notString (v : JsValue) : bool :=
  match v with
  | JsString _ => false
  | _ => true
  end.

Inductive Json :=
| ErrorJson (error message : string)
| DecisionJson (allowed : bool) (userId : string) (remaining : Z)
    (currentCount : nat) (limit : Z) (message : string).

Record Response := mkResponse { status : Z; json : Json }.

(** [const rateLimiter = new RateLimiter(100, 3600)] *)
Definition rateLimiter : RateLimiter := constructor 100 3600.

Definition badRequest : Response :=
  mkResponse 400
    (ErrorJson "Bad Request" "userId is required and must be a string").

Definition internalServerError : Response :=
  mkResponse 500
    (ErrorJson "Internal Server Error"
       "An error occurred while checking rate limit").

(** The handler.  [body] is [req.body]: [None] when the request carries no
    parsed body, in which case the destructuring throws and the [catch]
    answers 500; a field absent from the object reads as [undefined].  The
    three clock readings are those of [allow] and of the two reads inside
    [getStats]. *)
Definition postAllow (body : option (gmap string JsValue))
    (currentTime1 currentTime2 currentTime3 : Q) : M Response :=
  match body with
  | None => ret internalServerError
  | Some fields =>
      let userId := default JsUndefined (fields !! "userId") in
      if negb (truthy userId) || notString userId
      then ret badRequest
      else
        match userId with
        | JsString userId =>
            allowed <- allow userId currentTime1 ;;
            stats <- getStats userId currentTime2 currentTime3 ;;
            if allowed
            then ret (mkResponse 200
                   (DecisionJson true userId
                      (RateLimitStats.remaining stats)
                      (RateLimitStats.currentCount stats)
                      (RateLimitStats.limit stats) "Request allowed"))
            else ret (mkResponse 429
                   (DecisionJson false userId
                      (RateLimitStats.remaining stats)
                      (RateLimitStats.currentCount stats)
                      (RateLimitStats.limit stats) "Rate limit exceeded"))
        | _ => ret badRequest
        end
  end.

(** An identity that is missing from the body, or is the empty string. *)
Definition emptyOrMissing (fields : gmap string JsValue) : Prop :=
  fields !! "userId" = None ∨ fields !! "userId" = Some (JsString EmptyString).

(** The answer given when the limit is exceeded. *)
Definition isRateLimitRejection (r : Response) : Prop := status r = 429.

(** The answer given when validation fails. *)
Definition isValidationError (r : Response) : Prop := status r = 400.

End Routes.

(** ** Stored logs and liveness *)


(** ** Away from the window boundary *)



(** ** Runs under a clock *)

(** The clock readings a call makes, in the order it makes them. *)
Definition readingsOf (c : call) : list Q :=
  match c with
  | Allow _ t | GetRemainingRequests _ t | GetRequestCount _ t => [t]
  | GetStats _ t1 t2 => [t1; t2]
  | ResetUser _ | ResetAll => []
  end.

(** The readings of a whole run. *)
Definition readings (cs : list call) : list Q := concat (map readingsOf cs).

(** The users [allow] is called for in a run. *)
Fixpoint allowUsers (cs : list call) : gset string :=
  match cs with
  | [] => ∅
  | Allow u _ :: cs' => {[u]} ∪ allowUsers cs'
  | _ :: cs' => allowUsers cs'
  end.



(** Every stored log is in non-decreasing order and holds nothing newer
    than [hi]. *)
Definition sortedUpTo (hi : Q) (this : RateLimiter) : Prop :=
  ∀ userId,
    StronglySorted Qle (logOf userId this) ∧
    Forall (λ x, (x <= hi)%Q) (logOf userId this).

(** ** The routes [GET /rate-limit/stats/:userId] and
       [DELETE /rate-limit/reset/:userId] *)

Module AdminRoutes.

Inductive Json :=
| ErrorJson (error message : string)
| StatsJson (userId : string) (currentCount : nat) (remaining : Z)
    (limit : Z) (windowSizeSeconds : Q)
| ResetJson (message userId : string).

Record Response := mkResponse { status : Z; json : Json }.

Definition badRequest : Response :=
  mkResponse 400 (ErrorJson "Bad Request" "userId parameter is required").

(** [router.get('/stats/:userId', ...)]; [userId] is [req.params.userId],
    and the two clock readings are those of [getStats].  The answer spreads
    the statistics after the user id. *)
Definition getStats (userId : string) (currentTime1 currentTime2 : Q)
  : M Response :=
  if String.eqb userId EmptyString
  then ret badRequest
  else
    stats <- getStats userId currentTime1 currentTime2 ;;
    ret (mkResponse 200
           (StatsJson userId
              (RateLimitStats.currentCount stats)
              (RateLimitStats.remaining stats)
              (RateLimitStats.limit stats)
              (RateLimitStats.windowSizeSeconds stats))).

(** [router.delete('/reset/:userId', ...)] *)
Definition deleteReset (userId : string) : M Response :=
  if String.eqb userId EmptyString
  then ret badRequest
  else
    resetUser userId ;;;
    ret (mkResponse 200
           (ResetJson ("Rate limit reset for user: " ++ userId) userId)).

End AdminRoutes.

(** ** The router *)

(** A request to one of the three routes, with the clock readings its
    handler will make. *)
Inductive request :=
| PostAllow (body : option (gmap string Routes.JsValue))
    (currentTime1 currentTime2 currentTime3 : Q)
| GetStatsOf (userId : string) (currentTime1 currentTime2 : Q)
| DeleteReset (userId : string).

(** Handling a request, keeping the status of the answer. *)
Definition handle (r : request) : M Z :=
  match r with
  | PostAllow body t1 t2 t3 =>
      answer <- Routes.postAllow body t1 t2 t3 ;; ret (Routes.status answer)
  | GetStatsOf u t1 t2 =>
      answer <- AdminRoutes.getStats u t1 t2 ;;
      ret (AdminRoutes.status answer)
  | DeleteReset u =>
      answer <- AdminRoutes.deleteReset u ;; ret (AdminRoutes.status answer)
  end.

(** The requests of a session, handled one after the other on the one
    limiter the routes share. *)
Fixpoint serve (rs : list request) : M (list Z) :=
  match rs with
  | [] => ret []
  | r :: rs' => s <- handle r ;; ss <- serve rs' ;; ret (s :: ss)
  end.

(** ** The configuration loader, [src/config.ts] *)

Module Config.

(** A JavaScript string is a sequence of UTF-16 code units.  The file is
    taken as [readFileSync(path, 'utf-8')] returns it, already decoded.
    [ofString] gives the code units of an ASCII literal of the source. *)
Definition ofString (s : string) : list N :=
  map Ascii.N_of_ascii (String.list_ascii_of_string s).

(** The code units [trim] and [parseInt] skip: white space and line
    terminators. *)
Definition isWhiteSpace (c : N) : bool :=
  ((9 <=? c) && (c <=? 13) || (c =? 32) || (c =? 160) || (c =? 5760)
   || (8192 <=? c) && (c <=? 8202) || (c =? 8232) || (c =? 8233)
   || (c =? 8239) || (c =? 8287) || (c =? 12288) || (c =? 65279))%N.

Fixpoint trimStart (s : list N) : list N :=
  match s with
  | [] => []
  | c :: rest => if isWhiteSpace c then trimStart rest else s
  end.

Definition trimEnd (s : list N) : list N := rev (trimStart (rev s)).

(** [s.trim()] *)
Definition trim (s : list N) : list N := trimEnd (trimStart s).

(** [s.split(sep)] for a separator of one code unit: always at least one
    piece. *)
Fixpoint split (sep : N) (s : list N) : list (list N) :=
  match s with
  | [] => [[]]
  | c :: rest =>
      if (c =? sep)%N then [] :: split sep rest
      else match split sep rest with
           | piece :: pieces => (c :: piece) :: pieces
           | [] => [[c]]
           end
  end.

(** [s.startsWith(c)] for one code unit. *)
Definition startsWith (c : N) (s : list N) : bool :=
  match s with
  | [] => false
  | first :: _ => (first =? c)%N
  end.

(** [s.indexOf(c)] for one code unit; [None] stands for [-1]. *)
Fixpoint indexOf (c : N) (s : list N) : option nat :=
  match s with
  | [] => None
  | first :: rest =>
      if (first =? c)%N then Some 0%nat else S <$> indexOf c rest
  end.

(** [properties[key] = value] on an object created as [{}]: an own
    property is written, except under the key [__proto__], whose inherited
    setter ignores a string. *)
Definition assign (key value : list N) (properties : gmap (list N) (list N))
  : gmap (list N) (list N) :=
  if decide (key = ofString "__proto__") then properties
  else <[key := value]> properties.

(** The body of the [forEach] over the lines. *)
Definition readLine (properties : gmap (list N) (list N)) (line : list N)
  : gmap (list N) (list N) :=
  let trimmedLine := trim line in
  match trimmedLine with
  | [] => properties
  | _ :: _ =>
      if startsWith 35 trimmedLine then properties
      else
        match indexOf 61 trimmedLine with
        | Some equalIndex =>
            if (0 <? equalIndex)%nat
            then
              let key := trim (firstn equalIndex trimmedLine) in
              let value := trim (skipn (S equalIndex) trimmedLine) in
              assign key value properties
            else properties
        | None => properties
        end
  end.

(** The properties read from the whole content, line after line. *)
Definition readProperties (propertiesContent : list N)
  : gmap (list N) (list N) :=
  fold_left readLine (split 10 propertiesContent) ∅.

(** [properties[key] || fallback]: a missing or empty value gives way. *)
Definition orElse (value : option (list N)) (fallback : list N) : list N :=
  match value with
  | Some (c :: rest) => c :: rest
  | _ => fallback
  end.

Definition isDigit (c : N) : bool := ((48 <=? c) && (c <=? 57))%N.

Fixpoint leadingDigits (s : list N) : list N :=
  match s with
  | [] => []
  | c :: rest => if isDigit c then c :: leadingDigits rest else []
  end.

(** The value of a run of decimal digits, most significant first. *)
Definition digitsValue (digits : list N) : Z :=
  fold_left (λ acc c, 10 * acc + (Z.of_N c - 48)) digits 0.

(** [parseInt(s, 10)]: leading white space is skipped, one sign is read,
    then the longest run of decimal digits; [None] stands for [NaN].  The
    result is the mathematical integer, which the source rounds to a double
    (no difference below 2^53). *)
Definition parseInt10 (s : list N) : option Z :=
  let s := trimStart s in
  let (sign, s) :=
    match s with
    | c :: rest =>
        if (c =? 45)%N then (-1, rest)
        else if (c =? 43)%N then (1, rest)
        else (1, s)
    | [] => (1, s)
    end in
  match leadingDigits s with
  | [] => None
  | digits => Some (sign * digitsValue digits)
  end.

(** [interface RateLimitConfig] *)
Record RateLimitConfig := mkRateLimitConfig {
  requestsPerHour : option Z;
  windowSeconds : option Z
}.

Definition defaults : RateLimitConfig :=
  mkRateLimitConfig (Some 100) (Some 3600).

(** The [try] block, once the file has been read. *)
Definition parseConfig (propertiesContent : list N) : RateLimitConfig :=
  let properties := readProperties propertiesContent in
  mkRateLimitConfig
    (parseInt10
       (orElse (properties !! ofString "rate.limit.requests.per.hour")
          (ofString "100")))
    (parseInt10
       (orElse (properties !! ofString "rate.limit.window.seconds")
          (ofString "3600"))).

(** [ConfigLoader.loadConfig()].  The state is the static field [config];
    [file] is what reading [config.properties] gives if the method gets to
    read it, [None] when the read throws. *)
Definition loadConfig (file : option (list N))
    (config : option RateLimitConfig)
  : RateLimitConfig * option RateLimitConfig :=
  match config with
  | Some loaded => (loaded, config)
  | None =>
      let loaded :=
        match file with
        | Some propertiesContent => parseConfig propertiesContent
        | None => defaults
        end in
      (loaded, Some loaded)
  end.

(** [ConfigLoader.getRateLimitConfig()] *)
Definition getRateLimitConfig := loadConfig.

(** The decimal digits of a number, least significant first; [fuel] bounds
    their number. *)
Fixpoint digitsRev (fuel : nat) (n : N) : list N :=
  match fuel with
  | O => []
  | S fuel' =>
      (48 + n mod 10)%N
        :: (if (n / 10 =? 0)%N then [] else digitsRev fuel' (n / 10)%N)
  end.

(** A number written in decimal, as a properties file would hold it. *)
Definition decimal (n : N) : list N := rev (digitsRev (S (N.to_nat n)) n).

End Config.

(** ** Lines of a properties file, as the properties below speak of them *)

Module ConfigLines.

(** White space that does not end the line. *)
Definition blanks (s : list N) : bool :=
  forallb (λ c, Config.isWhiteSpace c && negb (c =? 10)%N) s.

(** No white space at all (so no line break either). *)
Definition spaceless (s : list N) : bool :=
  forallb (λ c, negb (Config.isWhiteSpace c)) s.

(** A key as it can stand before [=]: not empty, no white space, no [=],
    and not opening with the comment mark. *)
Definition plainKey (key : list N) : bool :=
  match key with
  | [] => false
  | first :: _ =>
      negb (first =? 35)%N
      && forallb (λ c, negb (Config.isWhiteSpace c) && negb (c =? 61)%N) key
  end.

(** The line [key = value], with optional blanks around both parts. *)
Definition assignment (sp1 key sp2 sp3 value sp4 : list N) : list N :=
  sp1 ++ key ++ sp2 ++ [61%N] ++ sp3 ++ value ++ sp4.

(** A line the loop passes over: empty once trimmed, a comment, or without
    an [=] after its first character. *)
Definition skipped (line : list N) : bool :=
  let trimmedLine := Config.trim line in
  match trimmedLine with
  | [] => true
  | _ :: _ =>
      Config.startsWith 35 trimmedLine
      || match Config.indexOf 61 trimmedLine with
         | Some equalIndex => negb (0 <? equalIndex)%nat
         | None => true
         end
  end.

(** The two keys [loadConfig] looks up. *)
Definition requestsKey : list N :=
  Config.ofString "rate.limit.requests.per.hour".
Definition windowKey : list N := Config.ofString "rate.limit.window.seconds".

(** No digit comes first in [s]. *)
Definition noDigitAhead (s : list N) : bool :=
  match s with
  | [] => true
  | c :: _ => negb (Config.isDigit c)
  end.

(** A numeral as [parseInt] reads it: an optional sign ([Some true] for
    [-], [Some false] for [+]) and the decimal digits of a number. *)
Definition numeral (sign : option bool) (n : N) : list N :=
  match sign with
  | Some true => [45%N]
  | Some false => [43%N]
  | None => []
  end ++ Config.decimal n.

(** The integer it denotes. *)
Definition numeralValue (sign : option bool) (n : N) : Z :=
  match sign with
  | Some true => - Z.of_N n
  | _ => Z.of_N n
  end.

End ConfigLines.

(** * Properties *)

(** ** The monad, unfolded *)

Ltac run :=
  unfold perform, getStats, getRequestCount, getRemainingRequests, allow,
    resetUser, resetAll, setUserLogs, this_, bind, ret in *; simpl in *.

Lemma allow_unfold userId currentTime this :
  allow userId currentTime this =
    let userLog :=
      pruneFront (currentTime - windowSizeSeconds this) (logOf userId this) in
    if Z.of_nat (length userLog) <? maxRequestsPerHour this
    then (true,
          mkRateLimiter (<[userId := userLog ++ [currentTime]]> (userLogs this))
            (maxRequestsPerHour this) (windowSizeSeconds this))
    else (false,
          mkRateLimiter (<[userId := userLog]> (userLogs this))
            (maxRequestsPerHour this) (windowSizeSeconds this)).
Proof.
  unfold allow, logOf, bind, this_, setUserLogs, ret; simpl.
  now destruct (_ <? _).
Qed.

Lemma getRequestCount_unfold userId currentTime this :
  getRequestCount userId currentTime this =
    (length (filteredLog (currentTime - windowSizeSeconds this)
               (logOf userId this)), this).
Proof. reflexivity. Qed.

Lemma getRemainingRequests_unfold userId currentTime this :
  getRemainingRequests userId currentTime this =
    (Z.max 0 (maxRequestsPerHour this -
              Z.of_nat (length (filteredLog
                (currentTime - windowSizeSeconds this) (logOf userId this)))),
     this).
Proof. reflexivity. Qed.

Lemma getStats_unfold userId t1 t2 this :
  getStats userId t1 t2 this =
    (RateLimitStats.mk
       (fst (getRequestCount userId t1 this))
       (fst (getRemainingRequests userId t2 this))
       (maxRequestsPerHour this) (windowSizeSeconds this), this).
Proof. reflexivity. Qed.

(** ** Comparisons *)

Lemma Qle_bool_false x y : Qle_bool x y = false ↔ (y < x)%Q.
Proof.
  split; intros H.
  - apply Qnot_le_lt. intros Hle. apply Qle_bool_iff in Hle. congruence.
  - destruct (Qle_bool x y) eqn:E; [|reflexivity].
    apply Qle_bool_iff in E. lra.
Qed.

Lemma Qgt_bool_true x y : Qgt_bool x y = true ↔ (y < x)%Q.
Proof.
  unfold Qgt_bool. rewrite negb_true_iff. apply Qle_bool_false.
Qed.

Lemma Qgt_bool_false x y : Qgt_bool x y = false ↔ (x <= y)%Q.
Proof.
  unfold Qgt_bool. rewrite negb_false_iff. apply Qle_bool_iff.
Qed.

(** ** The front prune and the filter *)

Section Pruning.
Variable windowStart : Q.





(** The prune keeps a suffix of the log: stale entries in front are gone. *)
Lemma pruneFront_suffix log :
  ∃ stale, log = stale ++ pruneFront windowStart log ∧
           Forall (λ x, (x <= windowStart)%Q) stale.
Proof.
  induction log as [|x log [stale [E Hs]]]; [now exists []|].
  simpl. destruct (Qle_bool x windowStart) eqn:Hx.
  - exists (x :: stale). split; [simpl; congruence|].
    constructor; [now apply Qle_bool_iff|assumption].
  - now exists [].
Qed.

Lemma pruneFront_length log :
  (length (pruneFront windowStart log) <= length log)%nat.
Proof.
  destruct (pruneFront_suffix log) as [stale [E _]].
  rewrite E at 2. rewrite length_app. lia.
Qed.

Lemma filteredLog_app l1 l2 :
  filteredLog windowStart (l1 ++ l2) =
    filteredLog windowStart l1 ++ filteredLog windowStart l2.
Proof. apply List.filter_app. Qed.

Lemma filteredLog_all_stale log :
  Forall (λ x, (x <= windowStart)%Q) log → filteredLog windowStart log = [].
Proof.
  induction 1 as [|x log Hx _ IH]; [reflexivity|].
  simpl. apply Qgt_bool_false in Hx. now rewrite Hx.
Qed.

Lemma filteredLog_all_live log :
  Forall (λ x, (windowStart < x)%Q) log → filteredLog windowStart log = log.
Proof.
  induction 1 as [|x log Hx _ IH]; [reflexivity|].
  simpl. apply Qgt_bool_true in Hx. rewrite Hx. now f_equal.
Qed.


Lemma filteredLog_length log :
  (length (filteredLog windowStart log) <= length log)%nat.
Proof. apply List.filter_length_le. Qed.

(** The filter sees what the prune left, no more. *)
Lemma filteredLog_pruneFront log :
  filteredLog windowStart (pruneFront windowStart log) =
    filteredLog windowStart log.
Proof.
  destruct (pruneFront_suffix log) as [stale [E Hs]].
  rewrite E at 2.
  now rewrite filteredLog_app, (filteredLog_all_stale stale Hs).
Qed.

Lemma filteredLog_le_pruneFront log :
  (length (filteredLog windowStart log) <=
     length (pruneFront windowStart log))%nat.
Proof. rewrite <- filteredLog_pruneFront. apply filteredLog_length. Qed.

(** On a log in non-decreasing order the two coincide. *)
Lemma pruneFront_sorted log :
  StronglySorted Qle log →
  pruneFront windowStart log = filteredLog windowStart log.
Proof.
  induction 1 as [|x log Hs IH Hx]; [reflexivity|].
  simpl. unfold Qgt_bool. destruct (Qle_bool x windowStart) eqn:E; simpl.
  - exact IH.
  - f_equal. symmetry. apply filteredLog_all_live.
    apply Qle_bool_false in E.
    eapply Forall_impl; [exact Hx|]. simpl. intros y Hy. lra.
Qed.

End Pruning.

(** ** What each method does to [this] *)

Lemma allow_fst userId currentTime this :
  fst (allow userId currentTime this) =
    (Z.of_nat (length (pruneFront (currentTime - windowSizeSeconds this)
                         (logOf userId this)))
     <? maxRequestsPerHour this).
Proof. rewrite allow_unfold. simpl. now destruct (_ <? _). Qed.

Lemma allow_logOf userId currentTime this :
  logOf userId (snd (allow userId currentTime this)) =
    let userLog :=
      pruneFront (currentTime - windowSizeSeconds this) (logOf userId this) in
    if Z.of_nat (length userLog) <? maxRequestsPerHour this
    then userLog ++ [currentTime] else userLog.
Proof.
  rewrite allow_unfold. simpl.
  destruct (_ <? _); unfold logOf at 1; simpl; now rewrite lookup_insert_eq.
Qed.

Lemma allow_lookup_ne userId other currentTime this :
  userId ≠ other →
  userLogs (snd (allow userId currentTime this)) !! other =
    userLogs this !! other.
Proof.
  intros Hne. rewrite allow_unfold. simpl.
  destruct (_ <? _); simpl; now rewrite lookup_insert_ne.
Qed.

Lemma allow_maxRequestsPerHour userId currentTime this :
  maxRequestsPerHour (snd (allow userId currentTime this)) =
    maxRequestsPerHour this.
Proof. rewrite allow_unfold. simpl. now destruct (_ <? _). Qed.

Lemma allow_windowSizeSeconds userId currentTime this :
  windowSizeSeconds (snd (allow userId currentTime this)) =
    windowSizeSeconds this.
Proof. rewrite allow_unfold. simpl. now destruct (_ <? _). Qed.

Lemma perform_Allow userId currentTime this :
  perform (Allow userId currentTime) this =
    (VBool (fst (allow userId currentTime this)),
     snd (allow userId currentTime this)).
Proof. unfold perform, bind, ret. now destruct (allow _ _ _). Qed.

(** The read-only projections hand [this] back as they found it. *)
Lemma perform_read c this : isRead c = true → snd (perform c this) = this.
Proof. destruct c; simpl; intros H; try discriminate; reflexivity. Qed.

(** No call assigns the [readonly] fields. *)
Lemma perform_maxRequestsPerHour c this :
  maxRequestsPerHour (snd (perform c this)) = maxRequestsPerHour this.
Proof.
  destruct c; try reflexivity.
  rewrite perform_Allow. apply allow_maxRequestsPerHour.
Qed.

Lemma perform_windowSizeSeconds c this :
  windowSizeSeconds (snd (perform c this)) = windowSizeSeconds this.
Proof.
  destruct c; try reflexivity.
  rewrite perform_Allow. apply allow_windowSizeSeconds.
Qed.

(** A call made for one user leaves every other user's map entry alone. *)
Lemma perform_lookup_ne c userId other this :
  userOf c = Some userId → userId ≠ other →
  userLogs (snd (perform c this)) !! other = userLogs this !! other.
Proof.
  intros Hc Hne. destruct c; simpl in Hc; try discriminate;
    injection Hc as ->; try reflexivity.
  - rewrite perform_Allow. now apply allow_lookup_ne.
  - simpl. now rewrite lookup_delete_ne.
Qed.

(** What a call made for a user returns, and the entry it leaves for that
    user, depend on [this] only through that user's entry and the two
    [readonly] fields. *)
Lemma perform_local c userId this1 this2 :
  userOf c = Some userId →
  userLogs this1 !! userId = userLogs this2 !! userId →
  maxRequestsPerHour this1 = maxRequestsPerHour this2 →
  windowSizeSeconds this1 = windowSizeSeconds this2 →
  fst (perform c this1) = fst (perform c this2) ∧
  userLogs (snd (perform c this1)) !! userId =
    userLogs (snd (perform c this2)) !! userId.
Proof.
  intros Hc Hlog HL HW.
  destruct c; simpl in Hc; try discriminate; injection Hc as ->.
  - rewrite !perform_Allow, !allow_unfold. unfold logOf. simpl.
    rewrite Hlog, HL, HW.
    destruct (_ <? _); simpl; now rewrite !lookup_insert_eq.
  - cbn. unfold logOf. now rewrite Hlog, HL, HW.
  - cbn. now rewrite Hlog, HW.
  - cbn. now rewrite Hlog, HL, HW.
  - cbn. now rewrite !lookup_delete_eq.
Qed.

Lemma performAll_cons c cs this :
  performAll (c :: cs) this =
    (fst (perform c this) :: fst (performAll cs (snd (perform c this))),
     snd (performAll cs (snd (perform c this)))).
Proof.
  simpl. unfold bind, ret.
  destruct (perform c this) as [v this']. simpl.
  now destruct (performAll cs this').
Qed.

Lemma burst_cons userId t times this :
  burst userId (t :: times) this =
    (fst (allow userId t this)
       :: fst (burst userId times (snd (allow userId t this))),
     snd (burst userId times (snd (allow userId t this)))).
Proof.
  simpl. unfold bind, ret.
  destruct (allow userId t this) as [b this']. simpl.
  now destruct (burst userId times this').
Qed.



(** ** Bursts inside one window *)




(** ** Logs in non-decreasing order *)

(** As long as the clock does not step back behind the newest entry, [allow]
    keeps the log in non-decreasing order. *)
Lemma allow_keeps_sorted userId currentTime this :
  StronglySorted Qle (logOf userId this) →
  Forall (λ x, (x <= currentTime)%Q) (logOf userId this) →
  StronglySorted Qle (logOf userId (snd (allow userId currentTime this))) ∧
  Forall (λ x, (x <= currentTime)%Q)
    (logOf userId (snd (allow userId currentTime this))).
Proof.
  intros Hsorted Hbelow. rewrite allow_logOf. cbv zeta.
  destruct (pruneFront_suffix (currentTime - windowSizeSeconds this)
              (logOf userId this)) as [stale [E _]].
  set (kept := pruneFront _ _) in *.
  rewrite E in Hsorted, Hbelow.
  apply Forall_app in Hbelow as [_ Hkept].
  assert (Hks : StronglySorted Qle kept).
  { clear - Hsorted. induction stale as [|x stale IH]; [exact Hsorted|].
    apply IH. now inversion Hsorted. }
  destruct (_ <? _); [|now split].
  split.
  - clear - Hks Hkept. induction Hks as [|x kept Hs IH Hx]; simpl.
    + repeat constructor.
    + inversion Hkept; subst. constructor; [now apply IH|].
      apply Forall_app. split; [exact Hx|]. now repeat constructor.
  - apply Forall_app. split; [exact Hkept|]. repeat constructor. lra.
Qed.

(** On such a log the read path and the write path count alike. *)
Lemma counts_agree_on_sorted userId currentTime this :
  StronglySorted Qle (logOf userId this) →
  fst (getRequestCount userId currentTime this) =
    length (pruneFront (currentTime - windowSizeSeconds this)
              (logOf userId this)).
Proof.
  intros Hsorted. rewrite getRequestCount_unfold. simpl fst.
  now rewrite pruneFront_sorted.
Qed.

(** ** Reachable states *)

Lemma reachable_allow L W userId currentTime this :
  reachable L W this → reachable L W (snd (allow userId currentTime this)).
Proof.
  intros H.
  replace (snd (allow userId currentTime this))
    with (snd (perform (Allow userId currentTime) this))
    by now rewrite perform_Allow.
  now apply reachable_call.
Qed.

Lemma reachable_burst L W userId times : ∀ this,
  reachable L W this → reachable L W (snd (burst userId times this)).
Proof.
  induction times as [|t times IH]; intros this H; [exact H|].
  rewrite burst_cons. simpl snd. now apply IH, reachable_allow.
Qed.


Lemma reachable_fields L W this :
  reachable L W this →
  maxRequestsPerHour this = L ∧ windowSizeSeconds this = W.
Proof.
  induction 1 as [|c this _ [IHL IHW]]; [now split|].
  now rewrite perform_maxRequestsPerHour, perform_windowSizeSeconds.
Qed.

(** ** The route, on a well-formed identity *)

(** A non-empty string passes the guard: the limiter is asked, and the
    status tells what it answered. *)
Lemma postAllow_valid fields userId t1 t2 t3 this :
  fields !! "userId" = Some (Routes.JsString userId) →
  userId ≠ EmptyString →
  snd (Routes.postAllow (Some fields) t1 t2 t3 this)
    = snd (allow userId t1 this) ∧
  Routes.status (fst (Routes.postAllow (Some fields) t1 t2 t3 this))
    = if fst (allow userId t1 this) then 200 else 429.
Proof.
  intros Hfield Hne. unfold Routes.postAllow. rewrite Hfield. simpl.
  apply String.eqb_neq in Hne. rewrite Hne. simpl.
  unfold bind. destruct (allow userId t1 this) as [allowed this'].
  rewrite getStats_unfold. now destruct allowed.
Qed.

(** * The claims *)









(** C4 fails on the code.  Limit 2, window 3 s.  A request is admitted when
    the clock reads 10 s, the clock then steps back and a second request is
    admitted at 5 s: the stored log is [10; 5].  When the clock reads 10 s
    again the entry 5 is out of the window: [getRequestCount] returns 1 and
    [getRemainingRequests] returns 1, but the front prune of [allow] stops at
    the live head 10, sees 2 entries and turns the request away. *)
Theorem read_and_write_counts_disagree :
  let regressed := [currentTimeOf 10000; currentTimeOf 5000] in
  let this := snd (burst "user123" regressed (constructor 2 3)) in
  let now := currentTimeOf 10000 in
  reachable 2 3 this ∧
  fst (burst "user123" regressed (constructor 2 3)) = [true; true] ∧
  logOf "user123" this = regressed ∧
  fst (getRequestCount "user123" now this) = 1%nat ∧
  fst (getRemainingRequests "user123" now this) = 1 ∧
  length (pruneFront (now - 3) (logOf "user123" this)) = 2%nat ∧
  fst (allow "user123" now this) = false.
Proof.
  split; [|repeat split; vm_compute; reflexivity].
  apply reachable_burst, reachable_new.
Qed.

(** C5, as stated, fails on the class itself: [RateLimiter.allow] has no
    check of its own.  Called with the empty string on a new limiter it
    returns [true] and stores a log under that key. *)
Lemma empty_identity_reaches_the_store :
  let this := constructor 100 3600 in
  fst (allow EmptyString 1 this) = true ∧
  userLogs this !! EmptyString = None ∧
  userLogs (snd (allow EmptyString 1 this)) !! EmptyString = Some [1%Q].
Proof. vm_compute. repeat split; reflexivity. Qed.

(** C5, amended (invalid input).  When the body of [POST /rate-limit/allow] has no
    [userId], or has the empty string there, the handler answers 400 without
    calling the limiter: [this] comes back unchanged, so no log is created or
    modified for any user, and the answer is not the 429 of a rate-limit
    rejection. *)
Theorem invalid_identity_rejected fields t1 t2 t3 this :
  Routes.emptyOrMissing fields →
  let answer := fst (Routes.postAllow (Some fields) t1 t2 t3 this) in
  snd (Routes.postAllow (Some fields) t1 t2 t3 this) = this ∧
  Routes.isValidationError answer ∧
  ¬ Routes.isRateLimitRejection answer.
Proof.
  intros [Hmissing | Hempty]; unfold Routes.postAllow;
    [rewrite Hmissing | rewrite Hempty]; simpl;
    (split; [reflexivity|]); (split; [reflexivity|]);
    unfold Routes.isRateLimitRejection; simpl; lia.
Qed.

Lemma invalid_identity_rejected_witness :
  let fields : gmap string Routes.JsValue :=
    {[ "userId" := Routes.JsString EmptyString ]} in
  snd (Routes.postAllow (Some fields) 1 2 3 Routes.rateLimiter)
    = Routes.rateLimiter ∧
  Routes.status
    (fst (Routes.postAllow (Some fields) 1 2 3 Routes.rateLimiter)) = 400.
Proof.
  intros fields.
  destruct (invalid_identity_rejected fields 1 2 3 Routes.rateLimiter)
    as (Hstate & Hanswer & _).
  - right. vm_compute. reflexivity.
  - split; [exact Hstate | exact Hanswer].
Defined.




(** C7 (idempotent read).  Any sequence of [getRequestCount],
    [getRemainingRequests] and [getStats] calls, for any users and at any
    clock readings, leaves [this] as it was; the next [allow] therefore
    returns the same answer and leaves the same state as it would have
    without the reads. *)
Theorem idempotent_read reads userId currentTime this :
  Forall (λ c, isRead c = true) reads →
  snd (performAll reads this) = this ∧
  allow userId currentTime (snd (performAll reads this)) =
    allow userId currentTime this.
Proof.
  intros Hreads.
  assert (Hsame : snd (performAll reads this) = this).
  { induction Hreads as [|c reads Hc _ IH]; [reflexivity|].
    rewrite performAll_cons. simpl snd. now rewrite (perform_read c this Hc). }
  now rewrite Hsame.
Qed.

Lemma idempotent_read_witness :
  let this := snd (burst "user123" [1; 2]%Q (constructor 3 3600)) in
  let reads := [GetRequestCount "user123" 3; GetStats "user123" 3 4;
                GetRemainingRequests "user2" 5; GetRequestCount "user123" 6] in
  allow "user123" 7 (snd (performAll reads this)) = allow "user123" 7 this.
Proof.
  intros this reads.
  apply (idempotent_read reads "user123" 7 this).
  repeat constructor.
Defined.

(** C8 (reset correctness).  After [resetUser(userId)], whatever the log
    held, the map has no entry for the user: the counts read 0, the whole
    limit remains, and the next [allow] sees 0 entries after its prune,
    passes whenever [L >= 1], and answers and stores exactly what it does on
    any state of the same limiter that never saw the user. *)
Theorem reset_correctness userId currentTime this :
  let L := maxRequestsPerHour this in
  let W := windowSizeSeconds this in
  let after := snd (resetUser userId this) in
  userLogs after !! userId = None ∧
  fst (getRequestCount userId currentTime after) = 0%nat ∧
  fst (getRemainingRequests userId currentTime after) = Z.max 0 L ∧
  length (pruneFront (currentTime - W) (logOf userId after)) = 0%nat ∧
  fst (allow userId currentTime after) = (0 <? L) ∧
  (1 <= L → fst (allow userId currentTime after) = true) ∧
  (∀ unseen,
     userLogs unseen !! userId = None →
     maxRequestsPerHour unseen = L →
     windowSizeSeconds unseen = W →
     fst (allow userId currentTime after)
       = fst (allow userId currentTime unseen) ∧
     userLogs (snd (allow userId currentTime after)) !! userId
       = userLogs (snd (allow userId currentTime unseen)) !! userId).
Proof.
  intros L W after.
  assert (Hgone : userLogs after !! userId = None)
    by (unfold after; cbn; apply lookup_delete_eq).
  assert (Hlog : logOf userId after = []) by (unfold logOf; now rewrite Hgone).
  assert (HL : maxRequestsPerHour after = L) by reflexivity.
  assert (HW : windowSizeSeconds after = W) by reflexivity.
  assert (Hallow : fst (allow userId currentTime after) = (0 <? L)).
  { rewrite allow_fst, Hlog, HL. reflexivity. }
  split; [exact Hgone|]. split.
  { rewrite getRequestCount_unfold, Hlog. reflexivity. }
  split.
  { rewrite getRemainingRequests_unfold, Hlog, HL. simpl. f_equal. lia. }
  split.
  { rewrite Hlog. reflexivity. }
  split; [exact Hallow|]. split.
  { intros H1. rewrite Hallow. apply Z.ltb_lt. lia. }
  intros unseen Hunseen HL' HW'.
  assert (Hlog' : logOf userId unseen = [])
    by (unfold logOf; now rewrite Hunseen).
  rewrite !allow_unfold, Hlog, Hlog', HL, HL'. cbv zeta.
  simpl pruneFront. change (Z.of_nat (length [])) with 0.
  destruct (0 <? L); simpl; now rewrite !lookup_insert_eq.
Qed.

Lemma reset_correctness_witness :
  let this := snd (burst "user123" [1; 2; 3]%Q (constructor 2 3600)) in
  fst (allow "user123" 4 this) = false ∧
  fst (allow "user123" 4 (snd (resetUser "user123" this))) = true.
Proof.
  intros this. split; [vm_compute; reflexivity|].
  destruct (reset_correctness "user123" 4 this) as (_ & _ & _ & _ & _ & H & _).
  apply H. vm_compute. discriminate.
Defined.

(** C9 (independence).  Whatever sequence of [allow], [getRequestCount],
    [getRemainingRequests], [getStats] and [resetUser] calls is made for a
    user [A], the map entry of another user [B] is what it was; so any call
    made for [B] afterwards returns what it would have returned, and leaves
    for [B] the entry it would have left, had the calls for [A] not been
    made. *)
Theorem independence A B calls this :
  A ≠ B →
  Forall (λ c, userOf c = Some A) calls →
  let after := snd (performAll calls this) in
  userLogs after !! B = userLogs this !! B ∧
  (∀ c, userOf c = Some B →
     fst (perform c after) = fst (perform c this) ∧
     userLogs (snd (perform c after)) !! B
       = userLogs (snd (perform c this)) !! B).
Proof.
  intros Hne Hcalls after.
  assert (Hframe : userLogs after !! B = userLogs this !! B
                   ∧ maxRequestsPerHour after = maxRequestsPerHour this
                   ∧ windowSizeSeconds after = windowSizeSeconds this).
  { unfold after. clear after. revert this.
    induction Hcalls as [|c calls Hc _ IH]; intros this; [now repeat split|].
    rewrite performAll_cons. simpl snd.
    destruct (IH (snd (perform c this))) as (-> & -> & ->).
    rewrite perform_maxRequestsPerHour, perform_windowSizeSeconds.
    repeat split. now apply (perform_lookup_ne c A B). }
  destruct Hframe as (Hlog & HL & HW).
  split; [exact Hlog|].
  intros c Hc. now apply (perform_local c B).
Qed.

Lemma independence_witness :
  let calls := [Allow "user1" 1; Allow "user1" 2; GetStats "user1" 2 2;
                Allow "user1" 3; ResetUser "user1"; Allow "user1" 4] in
  let this := snd (allow "user2" 0 (constructor 2 3600)) in
  fst (perform (Allow "user2" 5) (snd (performAll calls this)))
    = fst (perform (Allow "user2" 5) this).
Proof.
  intros calls this.
  destruct (independence "user1" "user2" calls this) as [_ H].
  - discriminate.
  - repeat constructor.
  - apply (H (Allow "user2" 5)). reflexivity.
Defined.

(** The stored logs never outgrow a non-negative limit. *)
Lemma reachable_length L W this :
  0 <= L → reachable L W this →
  ∀ userId, Z.of_nat (length (logOf userId this)) <= L.
Proof.
  intros HL. induction 1 as [|c this Hreach IH]; intros userId.
  - unfold logOf, constructor. simpl. rewrite lookup_empty. simpl. lia.
  - destruct (reachable_fields L W this Hreach) as [HmaxL _].
    destruct c as [u t|u t|u t|u t1 t2|u|]; try apply IH.
    + rewrite perform_Allow. simpl snd.
      destruct (decide (u = userId)) as [->|Hne].
      * rewrite allow_logOf. cbv zeta. rewrite HmaxL.
        pose proof (pruneFront_length (t - windowSizeSeconds this)
                      (logOf userId this)) as Hlen.
        specialize (IH userId).
        destruct (_ <? _) eqn:E.
        -- apply Z.ltb_lt in E. rewrite length_app. simpl. lia.
        -- lia.
      * unfold logOf. rewrite allow_lookup_ne by assumption. apply IH.
    + cbn. unfold logOf. cbn.
      destruct (decide (u = userId)) as [->|Hne].
      * rewrite lookup_delete_eq. simpl. lia.
      * rewrite lookup_delete_ne by assumption. apply IH.
    + unfold logOf. cbn. rewrite lookup_empty. simpl. lia.
Qed.

(** C10 (bounded log).  In every state a limiter built with a limit
    [L >= 0] can reach through [allow], the reads, [resetUser] and
    [resetAll], the stored log of every user has at most [L] entries, and
    [getRequestCount] returns at most [L]. *)
Theorem log_bounded_by_limit L W this :
  0 <= L → reachable L W this →
  ∀ userId,
    Z.of_nat (length (logOf userId this)) <= L ∧
    ∀ currentTime,
      Z.of_nat (fst (getRequestCount userId currentTime this)) <= L.
Proof.
  intros HL Hreach userId.
  pose proof (reachable_length L W this HL Hreach userId) as Hlen.
  split; [exact Hlen|]. intros currentTime.
  rewrite getRequestCount_unfold. simpl fst.
  pose proof (filteredLog_length (currentTime - windowSizeSeconds this)
                (logOf userId this)).
  lia.
Qed.

Lemma log_bounded_by_limit_witness :
  let this := snd (burst "user123" [1; 2; 3; 4]%Q (constructor 2 3600)) in
  Z.of_nat (length (logOf "user123" this)) <= 2.
Proof.
  intros this.
  apply (log_bounded_by_limit 2 3600 this).
  - lia.
  - apply reachable_burst, reachable_new.
Defined.

(** * Further properties of the limiter *)


(** ** One call to [allow], seen through the reads *)

Lemma filteredLog_snoc_live windowStart log t :
  (windowStart < t)%Q →
  filteredLog windowStart (log ++ [t]) = filteredLog windowStart log ++ [t].
Proof.
  intros Ht. rewrite filteredLog_app. f_equal.
  simpl. apply Qgt_bool_true in Ht. now rewrite Ht.
Qed.

(** X1.  With a positive window, a call that is let through raises the count
    read at the same clock reading by exactly one, and a call that is turned
    away leaves it as it was; this holds on every log, ordered or not. *)
Theorem allow_moves_count_by_one userId currentTime this :
  (0 < windowSizeSeconds this)%Q →
  let before := fst (getRequestCount userId currentTime this) in
  let after :=
    fst (getRequestCount userId currentTime
           (snd (allow userId currentTime this))) in
  after = if fst (allow userId currentTime this) then S before else before.
Proof.
  intros HW before after. unfold before, after.
  rewrite !getRequestCount_unfold. simpl fst.
  rewrite allow_windowSizeSeconds, allow_logOf, allow_fst. cbv zeta.
  destruct (_ <? _).
  - rewrite filteredLog_snoc_live by lra.
    rewrite filteredLog_pruneFront, length_app. simpl. lia.
  - now rewrite filteredLog_pruneFront.
Qed.

Lemma allow_moves_count_by_one_witness :
  let this := snd (burst "user123" [10; 5]%Q (constructor 3 3)) in
  fst (getRequestCount "user123" 10 (snd (allow "user123" 10 this))) = 2%nat.
Proof.
  intros this.
  etrans; [apply (allow_moves_count_by_one "user123" 10 this); reflexivity|].
  vm_compute. reflexivity.
Defined.

(** X2.  A call is let through only while the read reports something remaining,
    and with a positive window it then lowers the remaining number by exactly
    one. *)
Theorem allow_spends_one_remaining userId currentTime this :
  (0 < windowSizeSeconds this)%Q →
  fst (allow userId currentTime this) = true →
  1 <= fst (getRemainingRequests userId currentTime this) ∧
  fst (getRemainingRequests userId currentTime
         (snd (allow userId currentTime this)))
    = fst (getRemainingRequests userId currentTime this) - 1.
Proof.
  intros HW Hallowed.
  rewrite !getRemainingRequests_unfold. simpl fst.
  rewrite allow_maxRequestsPerHour, allow_windowSizeSeconds, allow_logOf.
  cbv zeta.
  rewrite allow_fst in Hallowed. rewrite Hallowed.
  apply Z.ltb_lt in Hallowed.
  rewrite filteredLog_snoc_live by lra.
  rewrite filteredLog_pruneFront, length_app. simpl length.
  pose proof (filteredLog_le_pruneFront
                (currentTime - windowSizeSeconds this)
                (logOf userId this)).
  lia.
Qed.

Lemma allow_spends_one_remaining_witness :
  let this := snd (burst "user123" [1; 2]%Q (constructor 5 3600)) in
  fst (getRemainingRequests "user123" 3 (snd (allow "user123" 3 this)))
    = fst (getRemainingRequests "user123" 3 this) - 1.
Proof.
  intros this.
  apply (allow_spends_one_remaining "user123" 3 this).
  - reflexivity.
  - vm_compute. reflexivity.
Defined.

(** ** The reads as time passes *)

Lemma filteredLog_later start1 start2 log :
  (start1 <= start2)%Q →
  (length (filteredLog start2 log) <= length (filteredLog start1 log))%nat.
Proof.
  intros Hle. induction log as [|x log IH]; [reflexivity|].
  simpl. destruct (Qgt_bool x start2) eqn:E2.
  - apply Qgt_bool_true in E2.
    assert (E1 : Qgt_bool x start1 = true) by (apply Qgt_bool_true; lra).
    rewrite E1. simpl. lia.
  - destruct (Qgt_bool x start1); simpl; lia.
Qed.

(** X3.  While no request is recorded, a later clock reading never shows a higher
    count, nor a lower remaining number. *)
Theorem reads_relax_with_time userId (t1 t2 : Q) this :
  (t1 <= t2)%Q →
  (fst (getRequestCount userId t2 this)
     <= fst (getRequestCount userId t1 this))%nat ∧
  fst (getRemainingRequests userId t1 this)
    <= fst (getRemainingRequests userId t2 this).
Proof.
  intros Hle.
  rewrite !getRequestCount_unfold, !getRemainingRequests_unfold. simpl fst.
  pose proof (filteredLog_later (t1 - windowSizeSeconds this)
                (t2 - windowSizeSeconds this) (logOf userId this)) as H.
  split; [apply H; lra|].
  assert (length (filteredLog (t2 - windowSizeSeconds this)
                    (logOf userId this))
          <= length (filteredLog (t1 - windowSizeSeconds this)
                       (logOf userId this)))%nat by (apply H; lra).
  lia.
Qed.

Lemma reads_relax_with_time_witness :
  let this := snd (burst "user123" [1; 2; 3]%Q (constructor 5 10)) in
  (fst (getRequestCount "user123" 12 this)
     <= fst (getRequestCount "user123" 4 this))%nat.
Proof.
  intros this.
  apply (reads_relax_with_time "user123" 4 12 this).
  discriminate.
Defined.

(** X4.  [getStats] reports the limit and the window of the limiter.  When the
    clock does not step back between its two reads, the count and the
    remaining number it reports add up to at least the limit; when both
    reads see the same clock value they add up to exactly the limit
    (on the states a limiter with a limit [L >= 0] can reach). *)
Theorem getStats_adds_up L W userId (t1 t2 : Q) this :
  0 <= L → reachable L W this → (t1 <= t2)%Q →
  let stats := fst (getStats userId t1 t2 this) in
  RateLimitStats.limit stats = L ∧
  RateLimitStats.windowSizeSeconds stats = W ∧
  L <= Z.of_nat (RateLimitStats.currentCount stats)
       + RateLimitStats.remaining stats ∧
  ((t2 <= t1)%Q →
   Z.of_nat (RateLimitStats.currentCount stats)
     + RateLimitStats.remaining stats = L).
Proof.
  intros HL Hreach Hle stats.
  destruct (reachable_fields L W this Hreach) as [HmaxL HmaxW].
  unfold stats. rewrite getStats_unfold.
  cbn [fst RateLimitStats.limit RateLimitStats.windowSizeSeconds
       RateLimitStats.currentCount RateLimitStats.remaining].
  rewrite getRequestCount_unfold, getRemainingRequests_unfold.
  simpl fst. rewrite HmaxL.
  set (W' := windowSizeSeconds this).
  assert (Hcount :
    (length (filteredLog (t2 - W') (logOf userId this))
     <= length (filteredLog (t1 - W') (logOf userId this)))%nat)
    by (apply filteredLog_later; lra).
  split; [reflexivity|]. split; [exact HmaxW|]. split; [lia|].
  intros Hge.
  assert (Hcount' :
    (length (filteredLog (t1 - W') (logOf userId this))
     <= length (filteredLog (t2 - W') (logOf userId this)))%nat)
    by (apply filteredLog_later; lra).
  pose proof (reachable_length L W this HL Hreach userId) as Hlen.
  pose proof (filteredLog_length (t1 - W') (logOf userId this)).
  lia.
Qed.

Lemma getStats_adds_up_witness :
  let this := snd (burst "user123" [1; 2; 3]%Q (constructor 5 10)) in
  let stats := fst (getStats "user123" 4 4 this) in
  Z.of_nat (RateLimitStats.currentCount stats)
    + RateLimitStats.remaining stats = 5.
Proof.
  intros this stats.
  destruct (getStats_adds_up 5 10 "user123" 4 4 this) as (_ & _ & _ & H).
  - lia.
  - apply reachable_burst, reachable_new.
  - discriminate.
  - apply H. discriminate.
Defined.

(** ** Which users the map holds *)

(** X5.  [allow] leaves an entry for its user in the map whether or not the
    request passes: even a call that is turned away for a user never seen
    before creates an (empty) log for that user. *)
Theorem allow_registers_user userId currentTime this :
  dom (userLogs (snd (allow userId currentTime this)))
    = {[userId]} ∪ dom (userLogs this) ∧
  (userLogs this !! userId = None →
   fst (allow userId currentTime this) = false →
   userLogs (snd (allow userId currentTime this)) !! userId = Some []).
Proof.
  rewrite allow_unfold. cbv zeta. split.
  - destruct (_ <? _); simpl; apply dom_insert_L.
  - intros Hunseen. unfold logOf. rewrite Hunseen. simpl.
    destruct (_ <? _); simpl; [discriminate|].
    intros _. apply lookup_insert_eq.
Qed.

Lemma allow_registers_user_witness :
  userLogs (snd (allow "user123" 1 (constructor 0 3600))) !! "user123"
    = Some [].
Proof.
  destruct (allow_registers_user "user123" 1 (constructor 0 3600)) as [_ H].
  apply H; reflexivity.
Defined.

(** X6.  Only [allow] creates entries: after any run, the users the map holds
    are among those it held before and those [allow] was called for.  Reads
    and resets never add a user. *)
Theorem only_allow_adds_users calls : ∀ this,
  dom (userLogs (snd (performAll calls this)))
    ⊆ dom (userLogs this) ∪ allowUsers calls.
Proof.
  induction calls as [|c calls IH]; intros this;
    [apply union_subseteq_l|].
  rewrite performAll_cons. simpl snd.
  specialize (IH (snd (perform c this))).
  apply elem_of_subseteq. intros x Hx.
  apply (proj1 (elem_of_subseteq _ _) IH) in Hx. clear IH.
  destruct c as [u t|u t|u t|u t1 t2|u|]; simpl allowUsers;
    try (change (snd (perform _ this)) with this in Hx; exact Hx).
  - rewrite perform_Allow in Hx. simpl snd in Hx.
    rewrite allow_unfold in Hx. cbv zeta in Hx.
    destruct (_ <? _); simpl in Hx; rewrite dom_insert_L in Hx;
      rewrite !elem_of_union in *; tauto.
  - cbn in Hx. rewrite dom_delete_L in Hx.
    rewrite !elem_of_union, elem_of_difference in *. tauto.
  - cbn in Hx. rewrite dom_empty_L in Hx.
    rewrite !elem_of_union, elem_of_empty in *. tauto.
Qed.

(** ** Resets *)

(** X7.  Resetting a user the map does not hold changes nothing; resetting twice
    is resetting once; resets of two users can be made in either order; and
    after [resetAll] a [resetUser] has nothing left to remove. *)
Theorem resetUser_algebra u v this :
  (userLogs this !! u = None → snd (resetUser u this) = this) ∧
  snd (resetUser u (snd (resetUser u this))) = snd (resetUser u this) ∧
  snd (resetUser u (snd (resetUser v this)))
    = snd (resetUser v (snd (resetUser u this))) ∧
  snd (resetUser u (snd (resetAll this))) = snd (resetAll this).
Proof.
  destruct this as [logs L W]. cbn. split; [|split; [|split]].
  - intros Hunseen. now rewrite delete_id.
  - now rewrite delete_delete_eq.
  - now rewrite delete_delete.
  - now rewrite delete_empty.
Qed.

Lemma resetUser_algebra_witness :
  snd (resetUser "user2" (snd (allow "user123" 1 (constructor 5 3600))))
    = snd (allow "user123" 1 (constructor 5 3600)).
Proof.
  destruct (resetUser_algebra "user2" "user2"
              (snd (allow "user123" 1 (constructor 5 3600)))) as [H _].
  apply H. vm_compute. reflexivity.
Defined.

(** ** Runs under a clock that does not step back *)

Lemma sortedUpTo_weaken lo hi this :
  (lo <= hi)%Q → sortedUpTo lo this → sortedUpTo hi this.
Proof.
  intros Hle H u. destruct (H u) as [Hs Hb]. split; [exact Hs|].
  eapply Forall_impl; [exact Hb|]. simpl. intros x Hx. lra.
Qed.

Lemma sortedUpTo_new L W hi : sortedUpTo hi (constructor L W).
Proof.
  intros u. unfold logOf, constructor. simpl. rewrite lookup_empty.
  split; constructor.
Qed.

Lemma logOf_allow_ne userId other currentTime this :
  userId ≠ other →
  logOf other (snd (allow userId currentTime this)) = logOf other this.
Proof. intros Hne. unfold logOf. now rewrite allow_lookup_ne. Qed.

Lemma logOf_resetUser userId other this :
  logOf other (snd (resetUser userId this))
    = if decide (userId = other) then [] else logOf other this.
Proof.
  unfold logOf. cbn. destruct (decide (userId = other)) as [->|Hne].
  - now rewrite lookup_delete_eq.
  - now rewrite lookup_delete_ne.
Qed.

Lemma logOf_resetAll other this : logOf other (snd (resetAll this)) = [].
Proof. unfold logOf. cbn. now rewrite lookup_empty. Qed.

(** One call, made no earlier than the newest stored entry. *)
Lemma perform_sortedUpTo c lo this :
  sortedUpTo lo this →
  Forall (λ t, (lo <= t)%Q) (readingsOf c) →
  ∀ hi, (lo <= hi)%Q → Forall (λ t, (t <= hi)%Q) (readingsOf c) →
  sortedUpTo hi (snd (perform c this)).
Proof.
  intros Hinv Hlo hi Hlohi Hhi.
  destruct c as [u t|u t|u t|u t1 t2|u|];
    try (change (snd (perform _ this)) with this;
         now apply (sortedUpTo_weaken lo)).
  - rewrite perform_Allow. simpl snd.
    simpl in Hlo, Hhi. inversion Hlo; inversion Hhi; subst.
    intros v. destruct (decide (u = v)) as [<-|Hne].
    + destruct (Hinv u) as [Hs Hb].
      destruct (allow_keeps_sorted u t this Hs) as [Hs' Hb'].
      { eapply Forall_impl; [exact Hb|]. simpl. intros x Hx. lra. }
      split; [exact Hs'|].
      eapply Forall_impl; [exact Hb'|]. simpl. intros x Hx. lra.
    + rewrite logOf_allow_ne by assumption.
      now apply (sortedUpTo_weaken lo).
  - intros v. change (snd (perform (ResetUser u) this))
      with (snd (resetUser u this)).
    rewrite logOf_resetUser. destruct (decide (u = v)).
    + split; constructor.
    + now apply (sortedUpTo_weaken lo).
  - intros v. change (snd (perform ResetAll this)) with (snd (resetAll this)).
    rewrite logOf_resetAll. split; constructor.
Qed.

Lemma sorted_app_inv (l1 l2 : list Q) :
  StronglySorted Qle (l1 ++ l2) →
  StronglySorted Qle l1 ∧ StronglySorted Qle l2 ∧
  Forall (λ x, Forall (Qle x) l2) l1.
Proof.
  induction l1 as [|x l1 IH]; simpl; intros H.
  - repeat split; [constructor|exact H|constructor].
  - inversion H as [|? ? Hs Hx]; subst.
    destruct (IH Hs) as (H1 & H2 & H12).
    apply Forall_app in Hx as [Hx1 Hx2].
    repeat split; try assumption; constructor; assumption.
Qed.

Lemma run_sortedUpTo calls : ∀ this lo,
  sortedUpTo lo this →
  StronglySorted Qle (lo :: readings calls) →
  ∀ hi, Forall (λ t, (t <= hi)%Q) (lo :: readings calls) →
  sortedUpTo hi (snd (performAll calls this)).
Proof.
  induction calls as [|c calls IH]; intros this lo Hinv Hsorted hi Hhi.
  - simpl. inversion Hhi; subst. now apply (sortedUpTo_weaken lo).
  - rewrite performAll_cons. simpl snd.
    unfold readings in *. simpl in Hsorted, Hhi.
    fold (readings calls) in *.
    inversion Hsorted as [|? ? Hs Hlo]; subst.
    inversion Hhi as [|? ? Hlohi Hall]; subst.
    apply Forall_app in Hlo as [Hlo1 Hlo2].
    apply Forall_app in Hall as [Hall1 Hall2].
    apply sorted_app_inv in Hs as (Hs1 & Hs2 & Hs12).
    (* the last reading of the call, if it makes any, is the new bound *)
    set (mid := List.last (readingsOf c) lo).
    assert (Hmid : (lo <= mid)%Q ∧ Forall (λ t, (t <= mid)%Q) (readingsOf c)
                   ∧ Forall (Qle mid) (readings calls) ∧ (mid <= hi)%Q).
    { unfold mid.
      destruct c as [u t|u t|u t|u t1 t2|u|]; simpl in *;
        repeat match goal with
               | H : Forall _ (_ :: _) |- _ => inversion H; subst; clear H
               | H : StronglySorted _ (_ :: _) |- _ =>
                   inversion H; subst; clear H
               end;
        repeat split; repeat constructor; try assumption; try lra. }
    destruct Hmid as (Hm1 & Hm2 & Hm3 & Hm4).
    apply (IH _ mid).
    + now apply (perform_sortedUpTo c lo).
    + constructor; assumption.
    + constructor; assumption.
Qed.

Lemma bounded_above (l : list Q) : ∃ hi, Forall (λ t, (t <= hi)%Q) l.
Proof.
  induction l as [|x l [hi Hhi]]; [exists 0%Q; constructor|].
  destruct (Qlt_le_dec hi x) as [Hlt|Hle].
  - exists x. constructor; [lra|].
    eapply Forall_impl; [exact Hhi|]. simpl. intros y Hy. lra.
  - exists hi. now constructor.
Qed.

Lemma run_from_new_sortedUpTo L W calls hi :
  StronglySorted Qle (readings calls) →
  Forall (λ t, (t <= hi)%Q) (readings calls) →
  sortedUpTo hi (snd (performAll calls (constructor L W))).
Proof.
  intros Hsorted Hhi.
  destruct (readings calls) as [|r rs] eqn:E.
  - apply (run_sortedUpTo calls _ hi); [apply sortedUpTo_new|..];
      rewrite E; repeat constructor. lra.
  - apply (run_sortedUpTo calls _ r); [apply sortedUpTo_new|..]; rewrite E.
    + constructor; [exact Hsorted|]. inversion Hsorted; subst.
      constructor; [lra|assumption].
    + inversion Hhi; subst. repeat constructor; assumption.
Qed.

(** X8.  When the clock never steps back during a run that starts from a new
    limiter, every stored log is in non-decreasing order and holds nothing
    newer than the last clock reading. *)
Theorem monotone_clock_keeps_logs_sorted L W calls hi userId :
  StronglySorted Qle (readings calls) →
  Forall (λ t, (t <= hi)%Q) (readings calls) →
  let this := snd (performAll calls (constructor L W)) in
  StronglySorted Qle (logOf userId this) ∧
  Forall (λ x, (x <= hi)%Q) (logOf userId this).
Proof.
  intros Hsorted Hhi this.
  exact (run_from_new_sortedUpTo L W calls hi Hsorted Hhi userId).
Qed.

Lemma monotone_clock_keeps_logs_sorted_witness :
  let calls := [Allow "user1" 1; GetStats "user1" 1 2; Allow "user2" 2;
                Allow "user1" 3; ResetUser "user2"; Allow "user1" 3] in
  StronglySorted Qle
    (logOf "user1" (snd (performAll calls (constructor 5 3600)))).
Proof.
  intros calls.
  apply (monotone_clock_keeps_logs_sorted 5 3600 calls 3 "user1").
  - repeat constructor; discriminate.
  - repeat constructor; discriminate.
Defined.

Lemma allow_iff_remaining_on_sorted userId currentTime this :
  StronglySorted Qle (logOf userId this) →
  fst (allow userId currentTime this) = true ↔
  0 < fst (getRemainingRequests userId currentTime this).
Proof.
  intros Hsorted.
  rewrite allow_fst, getRemainingRequests_unfold. simpl fst.
  rewrite pruneFront_sorted by assumption.
  rewrite Z.ltb_lt. lia.
Qed.

(** X9.  When the clock never stepped back during the run so far, the read
    predicts the write: the next [allow] for a user is let through exactly
    when [getRemainingRequests], at the same clock reading, is positive. *)
Theorem read_predicts_write L W calls userId currentTime :
  StronglySorted Qle (readings calls) →
  let this := snd (performAll calls (constructor L W)) in
  fst (allow userId currentTime this) = true ↔
  0 < fst (getRemainingRequests userId currentTime this).
Proof.
  intros Hsorted this.
  destruct (bounded_above (readings calls)) as [hi Hhi].
  apply allow_iff_remaining_on_sorted.
  apply (run_from_new_sortedUpTo L W calls hi Hsorted Hhi userId).
Qed.

Lemma read_predicts_write_witness :
  let calls := [Allow "user1" 1; Allow "user1" 2; GetRequestCount "user1" 2;
                Allow "user1" 4] in
  let this := snd (performAll calls (constructor 3 3600)) in
  fst (allow "user1" 5 this) = false.
Proof.
  intros calls this.
  destruct (fst (allow "user1" 5 this)) eqn:E; [|reflexivity].
  apply (read_predicts_write 3 3600 calls "user1" 5) in E.
  - vm_compute in E. discriminate E.
  - repeat constructor; discriminate.
Defined.




(** ** The sliding window, over a whole burst *)












(** * Properties of the routes *)

(** X13.  [POST /rate-limit/allow] answers 400 exactly when the body's [userId]
    is not a non-empty string (absent, [null], a number, a boolean, an
    object or the empty string), and then hands the limiter back untouched;
    otherwise the limiter is asked once, for that user, and the answer is 200
    or 429 as [allow] returned [true] or [false]. *)
Theorem postAllow_validation fields t1 t2 t3 this :
  let answer := fst (Routes.postAllow (Some fields) t1 t2 t3 this) in
  let after := snd (Routes.postAllow (Some fields) t1 t2 t3 this) in
  let wellFormed :=
    ∃ u, fields !! "userId" = Some (Routes.JsString u) ∧ u ≠ EmptyString in
  (Routes.status answer = 400 ↔ ¬ wellFormed) ∧
  (Routes.status answer = 400 → after = this) ∧
  (∀ u, fields !! "userId" = Some (Routes.JsString u) → u ≠ EmptyString →
     after = snd (allow u t1 this) ∧
     Routes.status answer = if fst (allow u t1 this) then 200 else 429).
Proof.
  intros answer after wellFormed.
  assert (Hvalid : ∀ u,
    fields !! "userId" = Some (Routes.JsString u) → u ≠ EmptyString →
    after = snd (allow u t1 this) ∧
    Routes.status answer = if fst (allow u t1 this) then 200 else 429).
  { intros u Hu Hne. now apply postAllow_valid. }
  assert (Hcases : wellFormed ∨
    (¬ wellFormed ∧
     Routes.postAllow (Some fields) t1 t2 t3 this
       = (Routes.badRequest, this))).
  { unfold wellFormed, Routes.postAllow.
    destruct (fields !! "userId") as [v|] eqn:E; simpl.
    - destruct v as [| |b|n|s|]; simpl;
        try (right; split; [intros (u & Hu & _); discriminate|];
             rewrite ?orb_true_r; reflexivity).
      destruct (String.eqb s EmptyString) eqn:Es.
      + apply String.eqb_eq in Es. subst s. right.
        split; [|reflexivity]. intros (u & Hu & Hne). congruence.
      + apply String.eqb_neq in Es. left. now exists s.
    - right. split; [|reflexivity]. intros (u & Hu & _). discriminate. }
  split; [|split; [|exact Hvalid]].
  - destruct Hcases as [Hwf | [Hnwf Hbad]].
    + destruct Hwf as (u & Hu & Hne).
      destruct (Hvalid u Hu Hne) as [_ Hstatus].
      split; [|intros Hn; exfalso; apply Hn; now exists u].
      rewrite Hstatus. destruct (fst (allow u t1 this)); discriminate.
    + split; [tauto|]. intros _. unfold answer. now rewrite Hbad.
  - destruct Hcases as [Hwf | [Hnwf Hbad]].
    + destruct Hwf as (u & Hu & Hne).
      destruct (Hvalid u Hu Hne) as [_ Hstatus].
      rewrite Hstatus. destruct (fst (allow u t1 this)); discriminate.
    + intros _. unfold after. now rewrite Hbad.
Qed.

Lemma postAllow_validation_witness :
  let fields : gmap string Routes.JsValue :=
    {[ "userId" := Routes.JsString "user123" ]} in
  Routes.status (fst (Routes.postAllow (Some fields) 1 1 1 Routes.rateLimiter))
    = 200.
Proof.
  intros fields.
  destruct (postAllow_validation fields 1 1 1 Routes.rateLimiter)
    as (_ & _ & H).
  destruct (H "user123") as [_ Hstatus].
  - vm_compute. reflexivity.
  - discriminate.
  - etrans; [exact Hstatus|]. vm_compute. reflexivity.
Defined.

Lemma filteredLog_after_allow userId currentTime this :
  (0 < windowSizeSeconds this)%Q →
  let windowStart := (currentTime - windowSizeSeconds this)%Q in
  filteredLog windowStart (logOf userId (snd (allow userId currentTime this)))
    = if fst (allow userId currentTime this)
      then filteredLog windowStart (logOf userId this) ++ [currentTime]
      else filteredLog windowStart (logOf userId this).
Proof.
  intros HW windowStart. rewrite allow_logOf, allow_fst. cbv zeta.
  fold windowStart. destruct (_ <? _).
  - rewrite filteredLog_snoc_live by (unfold windowStart; lra).
    now rewrite filteredLog_pruneFront.
  - apply filteredLog_pruneFront.
Qed.

Lemma postAllow_valid_json fields userId t1 t2 t3 this :
  fields !! "userId" = Some (Routes.JsString userId) →
  userId ≠ EmptyString →
  let after := snd (allow userId t1 this) in
  let stats := fst (getStats userId t2 t3 after) in
  Routes.json (fst (Routes.postAllow (Some fields) t1 t2 t3 this)) =
    Routes.DecisionJson (fst (allow userId t1 this)) userId
      (RateLimitStats.remaining stats) (RateLimitStats.currentCount stats)
      (RateLimitStats.limit stats)
      (if fst (allow userId t1 this)
       then "Request allowed" else "Rate limit exceeded").
Proof.
  intros Hfield Hne. unfold Routes.postAllow. rewrite Hfield. simpl.
  apply String.eqb_neq in Hne. rewrite Hne. simpl.
  unfold bind. destruct (allow userId t1 this) as [allowed this'].
  rewrite getStats_unfold. now destruct allowed.
Qed.

(** X14.  What the answer of [POST /rate-limit/allow] reports, when the handler's
    three clock readings coincide, on a state the limiter can reach (limit
    [L >= 0], window [W > 0]).  A 200 answer carries the count raised by one
    and the remaining number lowered by one with respect to what [getStats]
    reported just before.  A 429 answer, when the user's stored log is in
    non-decreasing order, carries [remaining = 0] and [currentCount = L]. *)
Theorem postAllow_reports L W fields userId (t : Q) this :
  fields !! "userId" = Some (Routes.JsString userId) →
  userId ≠ EmptyString →
  0 <= L → (0 < W)%Q → reachable L W this →
  let before := fst (getStats userId t t this) in
  let body := Routes.json (fst (Routes.postAllow (Some fields) t t t this)) in
  (fst (allow userId t this) = true →
   body = Routes.DecisionJson true userId
            (RateLimitStats.remaining before - 1)
            (S (RateLimitStats.currentCount before)) L "Request allowed") ∧
  (fst (allow userId t this) = false →
   StronglySorted Qle (logOf userId this) →
   body = Routes.DecisionJson false userId 0 (Z.to_nat L) L
            "Rate limit exceeded").
Proof.
  intros Hfield Hne HL HW Hreach before body.
  destruct (reachable_fields L W this Hreach) as [HmaxL HmaxW].
  assert (HW' : (0 < windowSizeSeconds this)%Q) by now rewrite HmaxW.
  pose proof (filteredLog_after_allow userId t this HW') as Hfilter.
  cbv zeta in Hfilter.
  unfold body. rewrite (postAllow_valid_json fields userId t t t this)
    by assumption.
  cbv zeta. unfold before. rewrite !getStats_unfold.
  cbn [fst RateLimitStats.limit RateLimitStats.currentCount
       RateLimitStats.remaining].
  rewrite !getRequestCount_unfold, !getRemainingRequests_unfold.
  cbn [fst].
  rewrite allow_maxRequestsPerHour, allow_windowSizeSeconds, Hfilter, HmaxL.
  split.
  - intros Hallowed. rewrite Hallowed. rewrite length_app. simpl length.
    rewrite allow_fst in Hallowed. apply Z.ltb_lt in Hallowed.
    rewrite HmaxL in Hallowed.
    pose proof (filteredLog_le_pruneFront (t - windowSizeSeconds this)
                  (logOf userId this)).
    f_equal; lia.
  - intros Hrejected Hsorted. rewrite Hrejected.
    rewrite allow_fst in Hrejected. apply Z.ltb_ge in Hrejected.
    rewrite pruneFront_sorted, HmaxL in Hrejected by assumption.
    pose proof (reachable_length L W this HL Hreach userId) as Hlen.
    pose proof (filteredLog_length (t - windowSizeSeconds this)
                  (logOf userId this)).
    f_equal; lia.
Qed.

Lemma postAllow_reports_witness :
  let fields : gmap string Routes.JsValue :=
    {[ "userId" := Routes.JsString "user123" ]} in
  let this := snd (burst "user123" [1; 2; 3]%Q (constructor 3 3600)) in
  Routes.json (fst (Routes.postAllow (Some fields) 4 4 4 this))
    = Routes.DecisionJson false "user123" 0 3 3 "Rate limit exceeded".
Proof.
  intros fields this.
  destruct (postAllow_reports 3 3600 fields "user123" 4 this) as [_ H].
  - vm_compute. reflexivity.
  - discriminate.
  - lia.
  - reflexivity.
  - apply reachable_burst, reachable_new.
  - apply H.
    + vm_compute. reflexivity.
    + replace (logOf _ _) with [1; 2; 3]%Q by (vm_compute; reflexivity).
      repeat constructor; discriminate.
Defined.

Lemma postAllow_state body t1 t2 t3 this :
  snd (Routes.postAllow body t1 t2 t3 this) = this ∨
  ∃ u, snd (Routes.postAllow body t1 t2 t3 this) = snd (allow u t1 this).
Proof.
  destruct body as [fields|]; [|now left].
  destruct (fields !! "userId") as [v|] eqn:E.
  - destruct v as [| |b|n|s|];
      try (left; unfold Routes.postAllow; rewrite E; simpl;
           rewrite ?orb_true_r; reflexivity).
    destruct (String.eqb s EmptyString) eqn:Es.
    + left. unfold Routes.postAllow. rewrite E. simpl. now rewrite Es.
    + right. exists s. apply String.eqb_neq in Es.
      now apply postAllow_valid.
  - left. unfold Routes.postAllow. now rewrite E.
Qed.

(** The handlers drive the limiter through its methods only. *)
Lemma handle_reachable L W r this :
  reachable L W this → reachable L W (snd (handle r this)).
Proof.
  intros Hreach. destruct r as [body t1 t2 t3|u t1 t2|u]; unfold handle, bind.
  - destruct (Routes.postAllow body t1 t2 t3 this) as [answer after] eqn:E.
    simpl. destruct (postAllow_state body t1 t2 t3 this) as [H|[u H]];
      rewrite E in H; simpl in H; subst after; [exact Hreach|].
    now apply reachable_allow.
  - unfold AdminRoutes.getStats. destruct (String.eqb u EmptyString);
      [exact Hreach|]. unfold bind. rewrite getStats_unfold. exact Hreach.
  - unfold AdminRoutes.deleteReset. destruct (String.eqb u EmptyString);
      [exact Hreach|].
    apply (reachable_call L W (ResetUser u) this Hreach).
Qed.

Lemma serve_reachable L W requests : ∀ this,
  reachable L W this → reachable L W (snd (serve requests this)).
Proof.
  induction requests as [|r requests IH]; intros this Hreach; [exact Hreach|].
  simpl. unfold bind at 1.
  destruct (handle r this) as [s this'] eqn:E.
  unfold bind. destruct (serve requests this') as [ss this''] eqn:E'.
  simpl. replace this'' with (snd (serve requests this')) by now rewrite E'.
  apply IH. replace this' with (snd (handle r this)) by now rewrite E.
  now apply handle_reachable.
Qed.

(** X15.  Whatever requests the three routes have served since start-up,
    [GET /rate-limit/stats/:userId] answers 200 for a non-empty user id,
    leaves the limiter as it is, and reports the configured limit 100 and
    window 3600 with a count of at most 100 and a remaining number between 0
    and 100. *)
Theorem stats_route_within_limit requests userId t1 t2 :
  userId ≠ EmptyString →
  let this := snd (serve requests Routes.rateLimiter) in
  ∃ count remaining,
    AdminRoutes.getStats userId t1 t2 this
      = (AdminRoutes.mkResponse 200
           (AdminRoutes.StatsJson userId count remaining 100 3600), this) ∧
    (count <= 100)%nat ∧ 0 <= remaining <= 100.
Proof.
  intros Hne this.
  assert (Hreach : reachable 100 3600 this)
    by apply serve_reachable, reachable_new.
  destruct (reachable_fields 100 3600 this Hreach) as [HmaxL HmaxW].
  pose proof (reachable_length 100 3600 this ltac:(lia) Hreach userId) as Hlen.
  unfold AdminRoutes.getStats. apply String.eqb_neq in Hne. rewrite Hne.
  unfold bind. rewrite getStats_unfold.
  rewrite getRequestCount_unfold, getRemainingRequests_unfold.
  cbn [fst RateLimitStats.limit RateLimitStats.currentCount
       RateLimitStats.remaining RateLimitStats.windowSizeSeconds ret].
  rewrite HmaxL, HmaxW.
  eexists _, _. split; [reflexivity|].
  pose proof (filteredLog_length (t1 - 3600) (logOf userId this)).
  lia.
Qed.

Lemma stats_route_within_limit_witness :
  let requests :=
    [PostAllow (Some {[ "userId" := Routes.JsString "user123" ]}) 1 1 1;
     GetStatsOf "user123" 2 2; DeleteReset "user2"; PostAllow None 3 3 3] in
  ∃ count remaining,
    AdminRoutes.getStats "user123" 4 4
      (snd (serve requests Routes.rateLimiter))
      = (AdminRoutes.mkResponse 200
           (AdminRoutes.StatsJson "user123" count remaining 100 3600),
         snd (serve requests Routes.rateLimiter)) ∧
    (count <= 100)%nat ∧ 0 <= remaining <= 100.
Proof.
  intros requests.
  apply (stats_route_within_limit requests "user123" 4 4).
  discriminate.
Defined.

(** X16.  [DELETE /rate-limit/reset/:userId], for a non-empty user id, answers 200
    and removes that user's log only; a [GET /rate-limit/stats/:userId] for
    the same user right after reports a count of 0 and the whole limit as
    remaining, whatever the clock reads. *)
Theorem reset_route_then_stats userId t1 t2 this :
  userId ≠ EmptyString →
  let L := maxRequestsPerHour this in
  let after := snd (AdminRoutes.deleteReset userId this) in
  fst (AdminRoutes.deleteReset userId this)
    = AdminRoutes.mkResponse 200
        (AdminRoutes.ResetJson ("Rate limit reset for user: " ++ userId)
           userId) ∧
  userLogs after = delete userId (userLogs this) ∧
  AdminRoutes.getStats userId t1 t2 after
    = (AdminRoutes.mkResponse 200
         (AdminRoutes.StatsJson userId 0 (Z.max 0 L) L
            (windowSizeSeconds this)), after).
Proof.
  intros Hne L after. apply String.eqb_neq in Hne.
  unfold after, AdminRoutes.deleteReset, AdminRoutes.getStats.
  rewrite Hne. cbn. rewrite lookup_delete_eq. simpl.
  repeat split. do 4 f_equal. unfold L. lia.
Qed.

Lemma reset_route_then_stats_witness :
  let this := snd (burst "user123" [1; 2; 3]%Q Routes.rateLimiter) in
  fst (AdminRoutes.getStats "user123" 4 4
         (snd (AdminRoutes.deleteReset "user123" this)))
    = AdminRoutes.mkResponse 200
        (AdminRoutes.StatsJson "user123" 0 100 100 3600).
Proof.
  intros this.
  destruct (reset_route_then_stats "user123" 4 4 this) as (_ & _ & H).
  - discriminate.
  - etrans; [exact (f_equal fst H)|]. reflexivity.
Defined.

(** * Properties of the configuration loader *)

Section ConfigStrings.
Import Config.
Local Open Scope N_scope.

Lemma digit_range c : isDigit c = true ↔ 48 <= c <= 57.
Proof.
  unfold isDigit. rewrite andb_true_iff, !N.leb_le. tauto.
Qed.

Lemma digit_not_space c : isDigit c = true → isWhiteSpace c = false.
Proof.
  intros H. apply digit_range in H.
  assert (Hc : c = 48 ∨ c = 49 ∨ c = 50 ∨ c = 51 ∨ c = 52 ∨ c = 53
               ∨ c = 54 ∨ c = 55 ∨ c = 56 ∨ c = 57) by lia.
  repeat destruct Hc as [-> | Hc]; try reflexivity. now subst.
Qed.

Lemma trimStart_head c s :
  isWhiteSpace c = false → trimStart (c :: s) = c :: s.
Proof. intros H. simpl. now rewrite H. Qed.

Lemma trimStart_spaces spaces s :
  forallb isWhiteSpace spaces = true →
  trimStart (spaces ++ s) = trimStart s.
Proof.
  induction spaces as [|c spaces IH]; simpl; [reflexivity|].
  rewrite andb_true_iff. intros [Hc Hrest]. rewrite Hc. now apply IH.
Qed.

Lemma trimEnd_last s c :
  isWhiteSpace c = false → trimEnd (s ++ [c]) = s ++ [c].
Proof.
  intros H. unfold trimEnd. rewrite rev_app_distr. simpl.
  rewrite H. simpl. now rewrite rev_involutive.
Qed.

(** A string without white space at either end is its own trim. *)
Lemma trim_tight first middle last :
  isWhiteSpace first = false → isWhiteSpace last = false →
  trim (first :: middle ++ [last]) = first :: middle ++ [last].
Proof.
  intros Hf Hl. unfold trim. rewrite trimStart_head by assumption.
  now rewrite app_comm_cons, trimEnd_last.
Qed.

Lemma trim_single c : isWhiteSpace c = false → trim [c] = [c].
Proof. intros H. unfold trim, trimEnd. simpl. rewrite H. simpl. now rewrite H. Qed.

Lemma trim_nil : trim [] = [].
Proof. reflexivity. Qed.

(** A string with no white space at all is its own trim. *)
Lemma trim_spaceless s :
  forallb (λ c, negb (isWhiteSpace c)) s = true → trim s = s.
Proof.
  intros H. destruct s as [|first rest]; [reflexivity|].
  simpl in H. apply andb_true_iff in H as [Hf Hrest].
  apply negb_true_iff in Hf.
  destruct (exists_last (l := first :: rest)) as (init & last & E);
    [discriminate|].
  destruct init as [|first' middle]; simpl in E.
  - injection E as -> ->. now apply trim_single.
  - injection E as <- ->. apply trim_tight; [assumption|].
    rewrite forallb_app in Hrest. apply andb_true_iff in Hrest as [_ Hl].
    simpl in Hl. rewrite andb_true_r in Hl. now apply negb_true_iff.
Qed.

Lemma split_cons_other sep c s :
  (c =? sep) = false →
  split sep (c :: s) =
    (c :: List.hd [] (split sep s)) :: List.tl (split sep s).
Proof.
  intros H. simpl. rewrite H.
  destruct s as [|c' s']; [reflexivity|].
  simpl. destruct (c' =? sep); [reflexivity|].
  now destruct (split sep s').
Qed.

Lemma split_nonempty sep s : split sep s ≠ [].
Proof.
  destruct s as [|c s]; simpl; [discriminate|].
  destruct (c =? sep); [discriminate|]. now destruct (split sep s).
Qed.

(** Splitting at a separator splits the pieces. *)
Lemma split_app sep a b :
  split sep (a ++ sep :: b) = split sep a ++ split sep b.
Proof.
  induction a as [|c a IH]; simpl.
  - now rewrite N.eqb_refl.
  - destruct (c =? sep); [now rewrite IH|].
    rewrite IH. pose proof (split_nonempty sep a) as Hne.
    destruct (split sep a) as [|piece pieces]; [easy|reflexivity].
Qed.

Lemma split_no_sep sep s :
  forallb (λ c, negb (c =? sep)) s = true → split sep s = [s].
Proof.
  induction s as [|c s IH]; simpl; [reflexivity|].
  rewrite andb_true_iff, negb_true_iff. intros [Hc Hs].
  rewrite Hc, IH by assumption. reflexivity.
Qed.

Lemma indexOf_app c key value :
  forallb (λ x, negb (x =? c)) key = true →
  indexOf c (key ++ c :: value) = Some (length key).
Proof.
  induction key as [|x key IH]; simpl.
  - now rewrite N.eqb_refl.
  - rewrite andb_true_iff, negb_true_iff. intros [Hx Hkey].
    rewrite Hx, IH by assumption. reflexivity.
Qed.

Lemma trimStart_app a b :
  trimStart (a ++ b) =
    match trimStart a with
    | [] => trimStart b
    | c :: rest => (c :: rest) ++ b
    end.
Proof.
  induction a as [|c a IH]; simpl; [now destruct (trimStart b)|].
  now destruct (isWhiteSpace c).
Qed.

Lemma trimStart_all_spaces s :
  forallb isWhiteSpace s = true → trimStart s = [].
Proof.
  intros H. rewrite <- (app_nil_r s). now rewrite trimStart_spaces.
Qed.

Lemma trimEnd_spaces s spaces :
  forallb isWhiteSpace spaces = true → trimEnd (s ++ spaces) = trimEnd s.
Proof.
  intros H. unfold trimEnd. rewrite rev_app_distr.
  rewrite trimStart_spaces; [reflexivity|].
  rewrite forallb_forall in *. intros x Hx. apply H.
  now apply in_rev.
Qed.

(** White space around a string does not change its trim. *)
Lemma trim_pad sp1 core sp2 :
  forallb isWhiteSpace sp1 = true → forallb isWhiteSpace sp2 = true →
  trim (sp1 ++ core ++ sp2) = trim core.
Proof.
  intros H1 H2. unfold trim.
  rewrite trimStart_spaces by assumption. rewrite trimStart_app.
  destruct (trimStart core) as [|c rest].
  - now rewrite trimStart_all_spaces.
  - now apply trimEnd_spaces.
Qed.

Lemma blanks_spaces s :
  ConfigLines.blanks s = true → forallb isWhiteSpace s = true.
Proof.
  unfold ConfigLines.blanks. rewrite !forallb_forall.
  intros H x Hx. specialize (H x Hx). now apply andb_true_iff in H.
Qed.

Lemma blanks_no_break s :
  ConfigLines.blanks s = true → forallb (λ c, negb (c =? 10)) s = true.
Proof.
  unfold ConfigLines.blanks. rewrite !forallb_forall.
  intros H x Hx. specialize (H x Hx). now apply andb_true_iff in H.
Qed.

Lemma spaceless_no_break s :
  ConfigLines.spaceless s = true → forallb (λ c, negb (c =? 10)) s = true.
Proof.
  unfold ConfigLines.spaceless. rewrite !forallb_forall.
  intros H x Hx. specialize (H x Hx).
  destruct (x =? 10) eqn:E; [|reflexivity].
  apply N.eqb_eq in E. subst x. discriminate H.
Qed.

Lemma spaces_no_equals s :
  forallb isWhiteSpace s = true → forallb (λ c, negb (c =? 61)) s = true.
Proof.
  rewrite !forallb_forall. intros H x Hx. specialize (H x Hx).
  destruct (x =? 61) eqn:E; [|reflexivity].
  apply N.eqb_eq in E. subst x. discriminate H.
Qed.

Lemma plainKey_facts key :
  ConfigLines.plainKey key = true →
  key ≠ [] ∧ startsWith 35 key = false ∧
  ConfigLines.spaceless key = true ∧
  forallb (λ c, negb (c =? 61)) key = true.
Proof.
  unfold ConfigLines.plainKey, ConfigLines.spaceless.
  destruct key as [|first rest]; [discriminate|].
  rewrite andb_true_iff, negb_true_iff. intros [Hfirst Hall].
  split; [discriminate|]. split; [exact Hfirst|].
  rewrite !forallb_forall in *.
  split; intros x Hx; specialize (Hall x Hx);
    now apply andb_true_iff in Hall.
Qed.

End ConfigStrings.

Section ConfigLoading.
Import Config.
Local Open Scope N_scope.

Lemma firstn_length_app (a b : list N) : firstn (length a) (a ++ b) = a.
Proof. induction a as [|y a IH]; simpl; [reflexivity|now rewrite IH]. Qed.

Lemma skipn_length_app (a b : list N) x :
  skipn (S (length a)) (a ++ x :: b) = b.
Proof. induction a as [|y a IH]; simpl; [reflexivity|exact IH]. Qed.

Lemma readLine_skipped properties line :
  ConfigLines.skipped line = true → readLine properties line = properties.
Proof.
  unfold ConfigLines.skipped, readLine.
  destruct (trim line) as [|c rest]; [reflexivity|].
  destruct (startsWith 35 (c :: rest)); [reflexivity|].
  rewrite orb_false_l.
  destruct (indexOf 61 (c :: rest)) as [i|]; [|reflexivity].
  destruct (0 <? i)%nat; simpl; [discriminate|reflexivity].
Qed.

(** What the trim of an assignment line looks like. *)
Lemma assignment_trimmed sp1 key sp2 sp3 value sp4 :
  ConfigLines.blanks sp1 = true → ConfigLines.blanks sp2 = true →
  ConfigLines.blanks sp3 = true → ConfigLines.blanks sp4 = true →
  ConfigLines.plainKey key = true → ConfigLines.spaceless value = true →
  ∃ tail,
    trim (ConfigLines.assignment sp1 key sp2 sp3 value sp4)
      = (key ++ sp2) ++ 61 :: tail ∧
    trim tail = value.
Proof.
  intros H1 H2 H3 H4 Hkey Hvalue.
  apply blanks_spaces in H1, H2, H3, H4.
  destruct (plainKey_facts key Hkey) as (Hne & _ & Hks & _).
  unfold ConfigLines.assignment.
  replace (sp1 ++ key ++ sp2 ++ [61] ++ sp3 ++ value ++ sp4)
    with (sp1 ++ (key ++ sp2 ++ [61] ++ sp3 ++ value) ++ sp4)
    by (now rewrite <- !app_assoc).
  rewrite trim_pad by assumption.
  destruct key as [|kf krest]; [congruence|].
  assert (Hkf : isWhiteSpace kf = false).
  { unfold ConfigLines.spaceless in Hks. simpl in Hks.
    apply andb_true_iff in Hks as [Hkf _]. now apply negb_true_iff. }
  unfold trim. rewrite <- app_comm_cons, trimStart_head by assumption.
  destruct value as [|vf vrest].
  - exists []. split; [|reflexivity].
    replace (kf :: krest ++ sp2 ++ [61] ++ sp3 ++ [])
      with (((kf :: krest) ++ sp2 ++ [61]) ++ sp3)
      by (rewrite app_nil_r, <- !app_assoc; reflexivity).
    rewrite trimEnd_spaces by assumption.
    rewrite app_assoc, trimEnd_last by reflexivity.
    now rewrite <- app_assoc.
  - destruct (exists_last (l := vf :: vrest)) as (init & last & E);
      [discriminate|].
    exists (sp3 ++ vf :: vrest). split.
    + rewrite E.
      replace (kf :: krest ++ sp2 ++ [61] ++ sp3 ++ init ++ [last])
        with (((kf :: krest) ++ sp2 ++ [61] ++ sp3 ++ init) ++ [last])
        by (rewrite <- !app_assoc; reflexivity).
      rewrite trimEnd_last.
      * rewrite <- !app_assoc. reflexivity.
      * unfold ConfigLines.spaceless in Hvalue. rewrite E in Hvalue.
        rewrite forallb_app in Hvalue.
        apply andb_true_iff in Hvalue as [_ Hl]. simpl in Hl.
        rewrite andb_true_r in Hl. now apply negb_true_iff.
    + change (trim (sp3 ++ vf :: vrest) = vf :: vrest).
      replace (sp3 ++ vf :: vrest) with (sp3 ++ (vf :: vrest) ++ [])
        by now rewrite app_nil_r.
      rewrite trim_pad by (assumption || reflexivity).
      now apply trim_spaceless.
Qed.

Lemma readLine_trimmed properties line trimmedLine equalIndex :
  trim line = trimmedLine → trimmedLine ≠ [] →
  startsWith 35 trimmedLine = false →
  indexOf 61 trimmedLine = Some equalIndex →
  (0 < equalIndex)%nat →
  readLine properties line
    = assign (trim (firstn equalIndex trimmedLine))
        (trim (skipn (S equalIndex) trimmedLine)) properties.
Proof.
  intros Htrim Hne Hhash Hindex Hpos. unfold readLine. rewrite Htrim.
  destruct trimmedLine as [|c rest]; [congruence|].
  rewrite Hhash, Hindex.
  apply Nat.ltb_lt in Hpos. now rewrite Hpos.
Qed.

Lemma readLine_assignment properties sp1 key sp2 sp3 value sp4 :
  ConfigLines.blanks sp1 = true → ConfigLines.blanks sp2 = true →
  ConfigLines.blanks sp3 = true → ConfigLines.blanks sp4 = true →
  ConfigLines.plainKey key = true → ConfigLines.spaceless value = true →
  readLine properties (ConfigLines.assignment sp1 key sp2 sp3 value sp4)
    = assign key value properties.
Proof.
  intros H1 H2 H3 H4 Hkey Hvalue.
  destruct (assignment_trimmed sp1 key sp2 sp3 value sp4)
    as (tail & Htrim & Htail); try assumption.
  destruct (plainKey_facts key Hkey) as (Hne & Hhash & Hks & Hkeq).
  rewrite (readLine_trimmed properties _ _ (length (key ++ sp2)) Htrim).
  - rewrite firstn_length_app, skipn_length_app, Htail.
    rewrite <- (app_nil_l (key ++ sp2)).
    rewrite trim_pad by (reflexivity || now apply blanks_spaces).
    now rewrite (trim_spaceless _ Hks).
  - destruct key; [congruence|discriminate].
  - destruct key; [congruence|exact Hhash].
  - apply indexOf_app. rewrite forallb_app, Hkeq. simpl.
    apply spaces_no_equals. now apply blanks_spaces.
  - destruct key; [congruence|]. simpl. lia.
Qed.

Lemma assignment_one_line sp1 key sp2 sp3 value sp4 :
  ConfigLines.blanks sp1 = true → ConfigLines.blanks sp2 = true →
  ConfigLines.blanks sp3 = true → ConfigLines.blanks sp4 = true →
  ConfigLines.plainKey key = true → ConfigLines.spaceless value = true →
  split 10 (ConfigLines.assignment sp1 key sp2 sp3 value sp4)
    = [ConfigLines.assignment sp1 key sp2 sp3 value sp4].
Proof.
  intros H1 H2 H3 H4 Hkey Hvalue.
  destruct (plainKey_facts key Hkey) as (_ & _ & Hks & _).
  apply split_no_sep. unfold ConfigLines.assignment.
  rewrite !forallb_app.
  rewrite (blanks_no_break sp1 H1), (blanks_no_break sp2 H2),
    (blanks_no_break sp3 H3), (blanks_no_break sp4 H4),
    (spaceless_no_break key Hks), (spaceless_no_break value Hvalue).
  reflexivity.
Qed.

Lemma readProperties_app a b :
  readProperties (a ++ 10 :: b)
    = fold_left readLine (split 10 b) (readProperties a).
Proof.
  unfold readProperties. now rewrite split_app, fold_left_app.
Qed.

End ConfigLoading.

Section ConfigNumbers.
Import Config.
Local Open Scope N_scope.

Lemma digitsValue_snoc digits c :
  digitsValue (digits ++ [c]) = (10 * digitsValue digits + (Z.of_N c - 48))%Z.
Proof. unfold digitsValue. now rewrite fold_left_app. Qed.

Lemma digitsRev_digits fuel : ∀ n, forallb isDigit (digitsRev fuel n) = true.
Proof.
  induction fuel as [|fuel IH]; intros n; [reflexivity|].
  simpl. rewrite andb_true_iff. split.
  - apply digit_range. pose proof (N.mod_lt n 10 ltac:(lia)) as Hmod.
    revert Hmod. generalize (n mod 10). intros r Hr. lia.
  - destruct (n / 10 =? 0); [reflexivity|apply IH].
Qed.

Lemma digitsRev_value fuel : ∀ n,
  (N.to_nat n < fuel)%nat →
  digitsValue (rev (digitsRev fuel n)) = Z.of_N n.
Proof.
  induction fuel as [|fuel IH]; intros n Hfuel; [lia|].
  simpl digitsRev. simpl rev. rewrite digitsValue_snoc.
  pose proof (N.div_mod n 10 ltac:(lia)) as Hdm.
  pose proof (N.mod_lt n 10 ltac:(lia)) as Hmod.
  revert Hdm Hmod IH. generalize (n mod 10), (n / 10). intros r q Hdm Hr IH.
  destruct (q =? 0) eqn:E.
  - apply N.eqb_eq in E. change (digitsValue (rev [])) with 0%Z. lia.
  - apply N.eqb_neq in E.
    rewrite IH by lia. lia.
Qed.

Lemma decimal_digits n : forallb isDigit (decimal n) = true.
Proof.
  unfold decimal. rewrite forallb_forall. intros x Hx.
  apply in_rev in Hx.
  pose proof (digitsRev_digits (S (N.to_nat n)) n) as H.
  rewrite forallb_forall in H. now apply H.
Qed.

Lemma decimal_value n : digitsValue (decimal n) = Z.of_N n.
Proof. unfold decimal. apply digitsRev_value. lia. Qed.

Lemma decimal_nonempty n : decimal n ≠ [].
Proof.
  unfold decimal. simpl. intros H.
  apply (f_equal (@length N)) in H. rewrite length_app in H. simpl in H. lia.
Qed.

Lemma decimal_spaceless n : ConfigLines.spaceless (decimal n) = true.
Proof.
  unfold ConfigLines.spaceless. rewrite forallb_forall. intros x Hx.
  pose proof (decimal_digits n) as H. rewrite forallb_forall in H.
  apply negb_true_iff, digit_not_space. now apply H.
Qed.

(** Whether a digit follows. *)
Lemma leadingDigits_app digits rest :
  forallb isDigit digits = true →
  List.hd_error rest = None ∨
    (∃ c, List.hd_error rest = Some c ∧ isDigit c = false) →
  leadingDigits (digits ++ rest) = digits.
Proof.
  intros Hd Hrest. induction digits as [|d digits IH]; simpl.
  - destruct rest as [|c rest]; [reflexivity|].
    destruct Hrest as [H|(c' & H & Hc)]; [discriminate|].
    injection H as ->. simpl. now rewrite Hc.
  - simpl in Hd. apply andb_true_iff in Hd as [Hd Hds].
    rewrite Hd. f_equal. now apply IH.
Qed.

(** [parseInt] on a decimal numeral, possibly after white space and a sign,
    and whatever follows the digits. *)
Lemma parseInt10_numeral spaces sign n rest :
  forallb isWhiteSpace spaces = true →
  List.hd_error rest = None ∨
    (∃ c, List.hd_error rest = Some c ∧ isDigit c = false) →
  parseInt10 (spaces ++ ConfigLines.numeral sign n ++ rest) =
    Some (ConfigLines.numeralValue sign n).
Proof.
  intros Hsp Hrest. unfold parseInt10, ConfigLines.numeral.
  rewrite trimStart_spaces by assumption.
  pose proof (decimal_digits n) as Hd.
  pose proof (decimal_nonempty n) as Hne.
  pose proof (decimal_value n) as Hv.
  pose proof (leadingDigits_app (decimal n) rest Hd Hrest) as Hlead.
  destruct sign as [[|]|]; simpl app.
  - simpl. rewrite Hlead.
    destruct (decimal n) as [|d ds]; [congruence|]. rewrite Hv.
    cbn [ConfigLines.numeralValue]. f_equal; lia.
  - simpl. rewrite Hlead.
    destruct (decimal n) as [|d ds]; [congruence|]. rewrite Hv.
    cbn [ConfigLines.numeralValue]. f_equal; lia.
  - destruct (decimal n) as [|d ds] eqn:E; [congruence|].
    simpl in Hd. apply andb_true_iff in Hd as [Hd0 _].
    simpl app. rewrite trimStart_head by now apply digit_not_space.
    assert (((d =? 45) = false) ∧ ((d =? 43) = false)) as [-> ->].
    { apply digit_range in Hd0. split; apply N.eqb_neq; lia. }
    rewrite app_comm_cons, Hlead, Hv. cbn [ConfigLines.numeralValue]. f_equal; lia.
Qed.

End ConfigNumbers.

Section ConfigFile.
Import Config.
Local Open Scope N_scope.

Lemma fold_skipped lines properties :
  forallb ConfigLines.skipped lines = true →
  fold_left readLine lines properties = properties.
Proof.
  revert properties. induction lines as [|line lines IH]; intros properties;
    [reflexivity|].
  simpl. rewrite andb_true_iff. intros [Hline Hlines].
  rewrite readLine_skipped by assumption. now apply IH.
Qed.

Lemma noDigitAhead_head rest :
  ConfigLines.noDigitAhead rest = true →
  List.hd_error rest = None ∨
    (∃ c, List.hd_error rest = Some c ∧ isDigit c = false).
Proof.
  destruct rest as [|c rest]; simpl; [now left|].
  intros H. right. exists c. split; [reflexivity|]. now apply negb_true_iff.
Qed.

Lemma numeral_spaceless sign n :
  ConfigLines.spaceless (ConfigLines.numeral sign n) = true.
Proof.
  unfold ConfigLines.numeral, ConfigLines.spaceless.
  rewrite forallb_app. fold (ConfigLines.spaceless (decimal n)).
  rewrite decimal_spaceless. now destruct sign as [[|]|].
Qed.

Lemma numeral_nonempty sign n suffix :
  ∃ c rest, ConfigLines.numeral sign n ++ suffix = c :: rest.
Proof.
  unfold ConfigLines.numeral. pose proof (decimal_nonempty n) as Hne.
  destruct sign as [[|]|]; simpl; eauto.
  destruct (decimal n) as [|d ds]; [congruence|]. simpl. eauto.
Qed.

(** Reading the file once more after an assignment line was added. *)
Lemma readProperties_assignment content sp1 key sp2 sp3 value sp4 :
  ConfigLines.blanks sp1 = true → ConfigLines.blanks sp2 = true →
  ConfigLines.blanks sp3 = true → ConfigLines.blanks sp4 = true →
  ConfigLines.plainKey key = true → ConfigLines.spaceless value = true →
  readProperties
    (content ++ 10 :: ConfigLines.assignment sp1 key sp2 sp3 value sp4)
    = assign key value (readProperties content).
Proof.
  intros H1 H2 H3 H4 Hkey Hvalue.
  rewrite readProperties_app, assignment_one_line by assumption.
  simpl. now apply readLine_assignment.
Qed.

End ConfigFile.

Section ConfigTheorems.
Import Config.
Local Open Scope N_scope.

(** X18.  The file is consulted at most once.  Whatever a first call to
    [loadConfig] returned is what every later call returns, whatever the file
    holds by then; in particular the defaults that follow a failed read stay
    in place once the file has become readable. *)
Theorem config_read_once file later config :
  loadConfig later (snd (loadConfig file config)) = loadConfig file config ∧
  getRateLimitConfig later (snd (loadConfig None None))
    = (defaults, Some defaults).
Proof.
  split; [|reflexivity].
  unfold loadConfig. now destruct config.
Qed.

(** X19.  A file in which every line is blank, a comment, or without an [=] after
    its first character (the empty file among them) gives the defaults, 100
    requests per 3600 seconds. *)
Theorem skipped_lines_give_defaults propertiesContent :
  forallb ConfigLines.skipped (split 10 propertiesContent) = true →
  parseConfig propertiesContent = defaults.
Proof.
  intros Hskipped. unfold parseConfig, readProperties.
  rewrite fold_skipped by assumption.
  rewrite !lookup_empty. vm_compute. reflexivity.
Qed.

Lemma skipped_lines_give_defaults_witness :
  parseConfig
    (ofString "# rate limits" ++ [13; 10]
     ++ ofString "   " ++ [10]
     ++ ofString "=5" ++ [10]
     ++ ofString "rate.limit.requests.per.hour 250")
  = defaults.
Proof.
  apply skipped_lines_give_defaults. vm_compute. reflexivity.
Defined.

(** X20.  A line that is blank, a comment or without a usable [=] can be dropped
    from anywhere in the file without changing what is read: from between
    two lines, from the top, from the bottom, or when it is the whole
    file. *)
Theorem skipped_line_is_ignored before line after :
  forallb (λ c, negb (c =? 10)) line = true →
  ConfigLines.skipped line = true →
  let same a b :=
    readProperties a = readProperties b ∧ parseConfig a = parseConfig b in
  same (before ++ 10 :: line ++ 10 :: after) (before ++ 10 :: after) ∧
  same (line ++ 10 :: after) after ∧
  same (before ++ 10 :: line) before ∧
  same line [].
Proof.
  intros Hone Hskipped same.
  assert (Hlift : ∀ a b, readProperties a = readProperties b → same a b).
  { intros a b H. split; [exact H|]. unfold parseConfig. now rewrite H. }
  assert (Halone : readProperties line = ∅).
  { unfold readProperties. rewrite (split_no_sep 10 line Hone). simpl.
    now apply readLine_skipped. }
  split; [|split; [|split]]; apply Hlift.
  - rewrite !readProperties_app, split_app, fold_left_app.
    rewrite (split_no_sep 10 line Hone). simpl.
    now rewrite readLine_skipped.
  - rewrite readProperties_app, Halone. reflexivity.
  - rewrite readProperties_app, (split_no_sep 10 line Hone). simpl.
    now apply readLine_skipped.
  - rewrite Halone. reflexivity.
Qed.

Lemma skipped_line_is_ignored_witness :
  parseConfig
    (ofString "rate.limit.window.seconds=60" ++ 10
       :: ofString "# one minute" ++ 10
       :: ofString "rate.limit.requests.per.hour=5")
  = parseConfig
      (ofString "rate.limit.window.seconds=60" ++ 10
         :: ofString "rate.limit.requests.per.hour=5") ∧
  parseConfig
    (ofString "# limits" ++ 10 :: ofString "rate.limit.window.seconds=60")
  = parseConfig (ofString "rate.limit.window.seconds=60").
Proof.
  split.
  - apply (skipped_line_is_ignored
             (ofString "rate.limit.window.seconds=60")
             (ofString "# one minute")
             (ofString "rate.limit.requests.per.hour=5"));
      vm_compute; reflexivity.
  - apply (skipped_line_is_ignored []
             (ofString "# limits")
             (ofString "rate.limit.window.seconds=60"));
      vm_compute; reflexivity.
Defined.

(** X21.  Adding the line [key = value] at the end of a file, a key being free of
    white space and of [=] and not opening with the comment mark, a value
    being free of white space: the properties read are those read before
    with [key] now bound to [value], replacing any earlier binding, and
    every other key is as before.  The key [__proto__] alone is never
    bound. *)
Theorem assignment_line_sets_key content sp1 key sp2 sp3 value sp4 :
  ConfigLines.blanks sp1 = true → ConfigLines.blanks sp2 = true →
  ConfigLines.blanks sp3 = true → ConfigLines.blanks sp4 = true →
  ConfigLines.plainKey key = true → ConfigLines.spaceless value = true →
  let added :=
    content ++ 10 :: ConfigLines.assignment sp1 key sp2 sp3 value sp4 in
  (key ≠ ofString "__proto__" →
   readProperties added = <[key := value]> (readProperties content)) ∧
  (key = ofString "__proto__" →
   readProperties added = readProperties content).
Proof.
  intros H1 H2 H3 H4 Hkey Hvalue added. unfold added.
  rewrite readProperties_assignment by assumption. unfold assign.
  split; intros H; case_decide; congruence.
Qed.

Lemma assignment_line_sets_key_witness :
  readProperties
    (ofString "color=red" ++ 10
       :: ConfigLines.assignment (ofString "  ") (ofString "color")
            (ofString " ") (ofString " ") (ofString "blue=ish")
            (ofString " "))
    !! ofString "color" = Some (ofString "blue=ish").
Proof.
  pose proof (assignment_line_sets_key (ofString "color=red")
                (ofString "  ") (ofString "color") (ofString " ")
                (ofString " ") (ofString "blue=ish") (ofString " ")
                eq_refl eq_refl eq_refl eq_refl eq_refl eq_refl) as [H _].
  rewrite H by (intros E; vm_compute in E; discriminate E).
  apply lookup_insert_eq.
Defined.

End ConfigTheorems.

Section ConfigValues.
Import Config.
Local Open Scope N_scope.

Lemma requestsKey_plain : ConfigLines.plainKey ConfigLines.requestsKey = true.
Proof. vm_compute. reflexivity. Qed.

Lemma windowKey_plain : ConfigLines.plainKey ConfigLines.windowKey = true.
Proof. vm_compute. reflexivity. Qed.

Lemma keys_distinct :
  ConfigLines.requestsKey ≠ ConfigLines.windowKey ∧
  ConfigLines.requestsKey ≠ ofString "__proto__" ∧
  ConfigLines.windowKey ≠ ofString "__proto__".
Proof. repeat split; intros E; vm_compute in E; discriminate E. Qed.

(** What [loadConfig] makes of the properties. *)
Lemma parseConfig_fields propertiesContent :
  parseConfig propertiesContent =
    mkRateLimitConfig
      (parseInt10
         (orElse (readProperties propertiesContent
                    !! ConfigLines.requestsKey) (ofString "100")))
      (parseInt10
         (orElse (readProperties propertiesContent
                    !! ConfigLines.windowKey) (ofString "3600"))).
Proof. reflexivity. Qed.

(** The properties after a line binding one of the two keys. *)
Lemma lookup_after_assignment content sp1 key sp2 sp3 value sp4 other :
  ConfigLines.blanks sp1 = true → ConfigLines.blanks sp2 = true →
  ConfigLines.blanks sp3 = true → ConfigLines.blanks sp4 = true →
  ConfigLines.plainKey key = true → ConfigLines.spaceless value = true →
  key ≠ ofString "__proto__" →
  readProperties
    (content ++ 10 :: ConfigLines.assignment sp1 key sp2 sp3 value sp4)
    !! other
  = if decide (key = other) then Some value
    else readProperties content !! other.
Proof.
  intros H1 H2 H3 H4 Hkey Hvalue Hproto.
  rewrite readProperties_assignment by assumption. unfold assign.
  destruct (decide (key = ofString "__proto__")); [congruence|].
  destruct (decide (key = other)) as [->|Hne].
  - apply lookup_insert_eq.
  - now apply lookup_insert_ne.
Qed.

(** X22.  The last assignment wins.  Add, at the end of any file, a line that
    binds one of the two keys to a decimal numeral of at most 2^53 (up to
    there every integer is a double), optionally signed and followed by
    characters other than digits and white space: the loaded value of that
    key is the number written, whatever the file said before, and the other
    key is read as before.  Nothing checks the sign. *)
Theorem last_assignment_wins content sp1 sp2 sp3 sp4 sign n suffix :
  ConfigLines.blanks sp1 = true → ConfigLines.blanks sp2 = true →
  ConfigLines.blanks sp3 = true → ConfigLines.blanks sp4 = true →
  ConfigLines.spaceless suffix = true →
  ConfigLines.noDigitAhead suffix = true →
  n <= 2 ^ 53 →
  let value := ConfigLines.numeral sign n ++ suffix in
  let line key := ConfigLines.assignment sp1 key sp2 sp3 value sp4 in
  let withRequests :=
    parseConfig (content ++ 10 :: line ConfigLines.requestsKey) in
  let withWindow :=
    parseConfig (content ++ 10 :: line ConfigLines.windowKey) in
  requestsPerHour withRequests = Some (ConfigLines.numeralValue sign n) ∧
  windowSeconds withRequests = windowSeconds (parseConfig content) ∧
  windowSeconds withWindow = Some (ConfigLines.numeralValue sign n) ∧
  requestsPerHour withWindow = requestsPerHour (parseConfig content).
Proof.
  intros H1 H2 H3 H4 Hsuffix Hahead _ value line withRequests withWindow.
  destruct keys_distinct as (Hrw & Hrp & Hwp).
  assert (Hvalue : ConfigLines.spaceless value = true).
  { unfold value, ConfigLines.spaceless. rewrite forallb_app.
    fold (ConfigLines.spaceless (ConfigLines.numeral sign n)).
    fold (ConfigLines.spaceless suffix).
    now rewrite numeral_spaceless, Hsuffix. }
  assert (Hparse : parseInt10 (orElse (Some value) (ofString "100"))
                   = Some (ConfigLines.numeralValue sign n)
                 ∧ parseInt10 (orElse (Some value) (ofString "3600"))
                   = Some (ConfigLines.numeralValue sign n)).
  { destruct (numeral_nonempty sign n suffix) as (c & rest & E).
    unfold value. rewrite E. simpl orElse. rewrite <- E.
    split; apply (parseInt10_numeral [] sign n suffix eq_refl);
      now apply noDigitAhead_head. }
  destruct Hparse as [Hp100 Hp3600].
  unfold withRequests, withWindow, line.
  rewrite !parseConfig_fields. cbn [requestsPerHour windowSeconds].
  rewrite !lookup_after_assignment
    by (assumption || apply requestsKey_plain || apply windowKey_plain).
  repeat case_decide; try congruence.
  repeat split; assumption.
Qed.

Lemma last_assignment_wins_witness :
  requestsPerHour
    (parseConfig
       (ofString "rate.limit.requests.per.hour=100" ++ 10
          :: ConfigLines.assignment (ofString " ") ConfigLines.requestsKey
               (ofString " ") (ofString " ")
               (ConfigLines.numeral None 250 ++ ofString "/h") [13]))
  = Some 250%Z.
Proof.
  pose proof (last_assignment_wins
                (ofString "rate.limit.requests.per.hour=100")
                (ofString " ") (ofString " ") (ofString " ") [13]
                None 250 (ofString "/h")
                eq_refl eq_refl eq_refl eq_refl eq_refl eq_refl
                ltac:(vm_compute; discriminate)) as [H _].
  exact H.
Defined.

(** X23.  Values the loader cannot use.  A line that binds a key to nothing
    ([key=]) makes that key fall back to its default, even when an earlier
    line had set it; a value that opens with anything but a digit or a sign
    is loaded as [NaN]. *)
Theorem unusable_values content sp1 sp2 sp3 sp4 c rest :
  ConfigLines.blanks sp1 = true → ConfigLines.blanks sp2 = true →
  ConfigLines.blanks sp3 = true → ConfigLines.blanks sp4 = true →
  ConfigLines.spaceless (c :: rest) = true →
  isDigit c = false → c ≠ 45 → c ≠ 43 →
  let line value :=
    ConfigLines.assignment sp1 ConfigLines.requestsKey sp2 sp3 value sp4 in
  requestsPerHour (parseConfig (content ++ 10 :: line [])) = Some 100%Z ∧
  requestsPerHour (parseConfig (content ++ 10 :: line (c :: rest))) = None.
Proof.
  intros H1 H2 H3 H4 Hvalue Hdigit H45 H43 line.
  destruct keys_distinct as (_ & Hrp & _).
  unfold line. rewrite !parseConfig_fields. cbn [requestsPerHour].
  rewrite !lookup_after_assignment
    by (assumption || apply requestsKey_plain || reflexivity).
  case_decide; [|congruence]. split; [vm_compute; reflexivity|].
  simpl orElse. unfold parseInt10.
  unfold ConfigLines.spaceless in Hvalue. simpl in Hvalue.
  apply andb_true_iff in Hvalue as [Hc _]. apply negb_true_iff in Hc.
  rewrite trimStart_head by assumption.
  apply N.eqb_neq in H45, H43. rewrite H45, H43.
  simpl. now rewrite Hdigit.
Qed.

Lemma unusable_values_witness :
  requestsPerHour
    (parseConfig
       (ofString "rate.limit.requests.per.hour=250" ++ 10
          :: ConfigLines.assignment [] ConfigLines.requestsKey [] []
               (ofString "many") []))
  = None.
Proof.
  pose proof (unusable_values (ofString "rate.limit.requests.per.hour=250")
                [] [] [] [] 109 (ofString "any")
                eq_refl eq_refl eq_refl eq_refl eq_refl eq_refl
                ltac:(discriminate) ltac:(discriminate)) as [_ H].
  exact H.
Defined.

End ConfigValues.

(** * A limit of zero or less *)

Lemma reachable_nothing_stored L W this :
  L <= 0 → reachable L W this → ∀ userId, logOf userId this = [].
Proof.
  intros HL. induction 1 as [|c this Hreach IH]; intros v.
  - unfold logOf, constructor. simpl. now rewrite lookup_empty.
  - destruct (reachable_fields L W this Hreach) as [HmaxL _].
    destruct c as [u t|u t|u t|u t1 t2|u|]; try apply IH.
    + rewrite perform_Allow. simpl snd.
      destruct (decide (u = v)) as [<-|Hne].
      * rewrite allow_logOf, (IH u), HmaxL. cbv zeta. simpl pruneFront.
        change (Z.of_nat (length [])) with 0.
        assert (E : (0 <? L) = false) by (apply Z.ltb_ge; lia).
        now rewrite E.
      * rewrite logOf_allow_ne by assumption. apply IH.
    + change (snd (perform (ResetUser u) this)) with (snd (resetUser u this)).
      rewrite logOf_resetUser. destruct (decide (u = v)); [reflexivity|].
      apply IH.
    + change (snd (perform ResetAll this)) with (snd (resetAll this)).
      apply logOf_resetAll.
Qed.

(** X17.  A limiter built with a limit of zero or less (nothing in the
    constructor or the configuration loader rules one out) turns every
    request away, never stores a timestamp, and reports a count of 0 and a
    remaining number of 0. *)
Theorem nonpositive_limit_rejects_all L W this userId currentTime :
  L <= 0 → reachable L W this →
  fst (allow userId currentTime this) = false ∧
  logOf userId (snd (allow userId currentTime this)) = [] ∧
  fst (getRequestCount userId currentTime this) = 0%nat ∧
  fst (getRemainingRequests userId currentTime this) = 0.
Proof.
  intros HL Hreach.
  destruct (reachable_fields L W this Hreach) as [HmaxL _].
  pose proof (reachable_nothing_stored L W this HL Hreach userId) as Hlog.
  rewrite allow_fst, allow_logOf, getRequestCount_unfold,
    getRemainingRequests_unfold, Hlog, HmaxL.
  cbv zeta. simpl pruneFront. simpl filteredLog. simpl fst.
  change (Z.of_nat (length [])) with 0.
  assert (E : (0 <? L) = false) by (apply Z.ltb_ge; lia).
  rewrite E. repeat split. lia.
Qed.

Lemma nonpositive_limit_rejects_all_witness :
  let this := snd (burst "user123" [1; 2]%Q (constructor (-5) 3600)) in
  fst (allow "user123" 3 this) = false.
Proof.
  intros this.
  apply (nonpositive_limit_rejects_all (-5) 3600 this "user123" 3).
  - lia.
  - apply reachable_burst, reachable_new.
Defined.
